(** * Catch the cat: the grid-and-turn logic of [src/scenes/mainScene.ts]

    A shallow embedding of the [MainScene] class: the hexagonal
    neighbourhood ([getNeighbours]), the bounds-checked cell lookup
    ([getBlock]), the turn handler ([playerClick]) and [reset].

    Numbers are the integral cell coordinates the scene works with and are
    modelled as [Z]; [(j & 1) === 0] is [Z.land j 1 =? 0].  The scene's
    data manager ([this.data]) is the record [SceneData]; methods that
    read or write it are computations in a small state-and-exception
    monad [M], the exception being the [TypeError] JavaScript raises when
    [this.blocks[i]] is [undefined] and is indexed. *)

From Stdlib Require Import ZArith Lia Bool List.
From stdpp Require Import base tactics option list list_numbers.
Import ListNotations.

Local Open Scope Z_scope.

(** ** Hexagonal neighbourhood *)

(** A [NeighbourData] object carrying its [i] and [j] members. *)
Definition NeighbourData : Type := (Z * Z)%type.

(** [static getNeighbours(i, j)]: slots 0..5 of the returned array. *)
Definition getNeighbours (i j : Z) : list NeighbourData :=
  let left := (i - 1, j) in
  let right := (i + 1, j) in
  let '(top_left, top_right, bottom_left, bottom_right) :=
    if Z.land j 1 =? 0 then
      ((i - 1, j - 1), (i, j - 1), (i - 1, j + 1), (i, j + 1))
    else
      ((i, j - 1), (i + 1, j - 1), (i, j + 1), (i + 1, j + 1)) in
  [left; top_left; top_right; right; bottom_right; bottom_left].

(** [Number.MAX_SAFE_INTEGER].  On coordinates strictly between its
    negation and itself the source's arithmetic is the one of [Z]:
    [i - 1], [i + 1], [j - 1] and [j + 1] are safe integers, computed
    without rounding, and [(j & 1)] is the parity of [j].  Every cell of a
    grid the scene can hold has such coordinates. *)
Definition MAX_SAFE_INTEGER : Z := 2 ^ 53 - 1.

Definition safe_cell (i j : Z) : Prop :=
  - MAX_SAFE_INTEGER < i < MAX_SAFE_INTEGER /\
  - MAX_SAFE_INTEGER < j < MAX_SAFE_INTEGER.

(** ** Data model *)

(** [enum GameState]. *)
Inductive GameState : Type := PLAYING | WIN | LOSE.

Definition GameState_eqb (a b : GameState) : bool :=
  match a, b with
  | PLAYING, PLAYING | WIN, WIN | LOSE, LOSE => true
  | _, _ => false
  end.

(** The texts handed to [setStatusText], one constructor per call site
    (the texts themselves go through the translation function). *)
Inductive Message : Type :=
| MsgEscaped          (* state setter, LOSE: the cat reached the edge *)
| MsgNoWayOut         (* state setter, WIN and playerClick: no way out *)
| MsgGameOver         (* playerClick: the game is over, restarting *)
| MsgNoSuchBlock      (* playerClick: this position does not exist *)
| MsgAlreadyWall      (* playerClick: the position is already a wall *)
| MsgCatIsHere        (* playerClick: the position is the cat's *)
| MsgClicked (i j : Z) (* playerClick: you clicked (i, j) *)
| MsgCatConcedes      (* playerClick: the cat gives up, you win *)
| MsgStart.           (* reset: click the dots, surround the cat *)

(** A [Block] sprite: the coordinates it was created with and its
    [isWall] member. *)
Record Block : Type := mkBlock { block_i : Z; block_j : Z; isWall : bool }.

Definition Block_set_isWall (value : bool) (block : Block) : Block :=
  {| block_i := block_i block; block_j := block_j block; isWall := value |}.

(** The members of the [Cat] sprite that the scene reads: [cat.i],
    [cat.j] and [cat.anims.isPlaying]. *)
Record Cat : Type := mkCat { cat_i : Z; cat_j : Z; anims_isPlaying : bool }.

Definition Cat_anims_stop (c : Cat) : Cat :=
  {| cat_i := cat_i c; cat_j := cat_j c; anims_isPlaying := false |}.

(** The entries of [this.data]: "blocks", "cat", "status_bar", "state". *)
Record SceneData : Type := mkSceneData {
  blocks : list (list Block);
  cat : Cat;
  statusBar : Message;
  state : GameState
}.

Definition with_blocks (bs : list (list Block)) (s : SceneData) : SceneData :=
  {| blocks := bs; cat := cat s; statusBar := statusBar s; state := state s |}.
Definition with_cat (c : Cat) (s : SceneData) : SceneData :=
  {| blocks := blocks s; cat := c; statusBar := statusBar s; state := state s |}.
Definition with_statusBar (t : Message) (s : SceneData) : SceneData :=
  {| blocks := blocks s; cat := cat s; statusBar := t; state := state s |}.
Definition with_state (v : GameState) (s : SceneData) : SceneData :=
  {| blocks := blocks s; cat := cat s; statusBar := statusBar s; state := v |}.

(** The three methods of [Cat] that the scene calls.  The class lives in
    [src/sprites/cat.ts]; the scene is verified against any
    implementation: [isCaught] is a query, [step] and [reset] may change
    whatever the cat can reach through its scene (its own position, and
    the game state through the "escaped" and "win" handlers that
    [createCat] registers). *)
Record CatMethods : Type := mkCatMethods {
  isCaught : SceneData -> bool;
  step : SceneData -> bool * SceneData;
  cat_reset : SceneData -> SceneData
}.

(** ** The state-and-exception monad of scene methods *)

Inductive outcome (A : Type) : Type :=
| Returned (a : A) (s : SceneData)   (* normal completion *)
| Thrown (s : SceneData).            (* a TypeError propagates *)
Arguments Returned {A} a s.
Arguments Thrown {A} s.

Definition M (A : Type) : Type := SceneData -> outcome A.

Definition ret {A : Type} (a : A) : M A := fun s => Returned a s.

Definition bind {A B : Type} (c : M A) (k : A -> M B) : M B :=
  fun s => match c s with
           | Returned a s' => k a s'
           | Thrown s' => Thrown s'
           end.

Definition gets {A : Type} (f : SceneData -> A) : M A := fun s => Returned (f s) s.
Definition modify (f : SceneData -> SceneData) : M unit := fun s => Returned tt (f s).
Definition throw {A : Type} : M A := fun s => Thrown s.
Definition when (b : bool) (c : M unit) : M unit := if b then c else ret tt.

Declare Scope scene_scope.
Delimit Scope scene_scope with scene.
Notation "x ← y ; z" := (bind y (fun x => z)) : scene_scope.
Notation "x ;; z" := (bind x (fun _ => z)) : scene_scope.

(** The result and the final data of a run that completed normally. *)
Definition returned {A : Type} (o : outcome A) : option (A * SceneData) :=
  match o with Returned a s => Some (a, s) | Thrown _ => None end.

(** ** The scene *)

Module MainScene.
Section Scene.
(** [public readonly w, h], set by the constructor, and the cat class. *)
Context (w h : Z) (catM : CatMethods).

Local Open Scope scene_scope.

(** [private setStatusText(message)]. *)
Definition setStatusText (message : Message) : M unit :=
  modify (with_statusBar message).

(** [set state(value)]; the [default] arm is unreachable for a
    [GameState]. *)
Definition set_state (value : GameState) : M unit :=
  match value with
  | PLAYING => ret tt
  | LOSE => setStatusText MsgEscaped
  | WIN => setStatusText MsgNoWayOut
  end ;;
  modify (with_state value).

(** Modelled from the spec: the [Block] constructor, in
    [src/sprites/block.ts]; "all cells created at board initialization
    with isWall = false". *)
Definition new_Block (i j : Z) : Block :=
  {| block_i := i; block_j := j; isWall := false |}.

(** [private createBlocks()]: the value stored in [this.blocks]. *)
Definition createBlocks : list (list Block) :=
  (fun i => (fun j => new_Block i j) <$> seqZ 0 h) <$> seqZ 0 w.

(** [getBlock(i, j)].  [Some block] is the block object, [None] stands
    for [null] (and for [undefined], read from a column that is too
    short); indexing a missing column throws. *)
Definition getBlock (i j : Z) : M (option Block) :=
  if negb ((0 <=? i) && (i <? w) && (0 <=? j) && (j <? h)) then
    ret None
  else
    bs ← gets blocks;
    match bs !! Z.to_nat i with
    | None => throw
    | Some column => ret (column !! Z.to_nat j)
    end.

(** [block.isWall = value] for the block object stored at
    [this.blocks[i][j]]. *)
Definition assign_isWall (i j : Z) (value : bool) : M unit :=
  modify (fun s =>
    with_blocks
      (alter (alter (Block_set_isWall value) (Z.to_nat j)) (Z.to_nat i) (blocks s))
      s).

(** [reset()]. *)
Definition reset : M unit :=
  modify (cat_reset catM) ;;
  modify (fun s =>
    with_blocks ((fun column : list Block => Block_set_isWall false <$> column) <$> blocks s) s) ;;
  set_state PLAYING ;;
  setStatusText MsgStart.

(** [playerClick(i, j)]. *)
Definition playerClick (i j : Z) : M bool :=
  st ← gets state;
  if negb (GameState_eqb st PLAYING) then
    setStatusText MsgGameOver ;;
    reset ;;
    ret false
  else
    c ← gets cat;
    when (anims_isPlaying c) (modify (fun s => with_cat (Cat_anims_stop (cat s)) s)) ;;
    block ← getBlock i j;
    match block with
    | None =>
        setStatusText MsgNoSuchBlock ;;
        ret false
    | Some block =>
        if isWall block then
          setStatusText MsgAlreadyWall ;;
          ret false
        else
          c ← gets cat;
          if (cat_i c =? i) && (cat_j c =? j) then
            setStatusText MsgCatIsHere ;;
            ret false
          else
            assign_isWall i j true ;;
            caught ← gets (isCaught catM);
            if caught then
              setStatusText MsgNoWayOut ;;
              set_state WIN ;;
              ret false
            else
              setStatusText (MsgClicked i j) ;;
              result ← (fun s => let '(r, s') := step catM s in Returned r s');
              when (negb result)
                (setStatusText MsgCatConcedes ;;
                 set_state WIN) ;;
              ret true
    end.

(** The handlers [createCat] registers on the cat's "escaped" and "win"
    events. *)
Definition on_escaped : M unit := set_state LOSE.
Definition on_win : M unit := set_state WIN.

(** [get blocksData()]: a fresh array of arrays holding each block's
    [isWall], filled index by index in the order of [forEach]. *)
Definition blocksData (s : SceneData) : list (list bool) :=
  (fun column : list Block => isWall <$> column) <$> blocks s.

(** [create()]: the blocks are created and stored, then the cat, then
    the status bar, and [reset()] runs last.  [new_Cat] and
    [new_StatusBar] are what the constructors of [Cat] and [StatusBar]
    (in [src/sprites/]) produce; the animations and the reset button do
    not touch [this.data]. *)
Definition create (new_Cat : Cat) (new_StatusBar : Message) : M unit :=
  modify (with_blocks createBlocks) ;;
  modify (with_cat new_Cat) ;;
  modify (with_statusBar new_StatusBar) ;;
  reset.

(** The events the scene subscribes to: "player_click" of a block
    ([createBlocks]), "pointerup" of the reset button
    ([createResetButton]), "escaped" and "win" of the cat
    ([createCat]). *)
Inductive Event : Type := Click (i j : Z) | ResetButton | CatEscaped | CatWin.

Definition handle (e : Event) : M unit :=
  match e with
  | Click i j => _ ← playerClick i j; ret tt
  | ResetButton => reset
  | CatEscaped => on_escaped
  | CatWin => on_win
  end.

Fixpoint handle_all (events : list Event) : M unit :=
  match events with
  | [] => ret tt
  | e :: events' => handle e ;; handle_all events'
  end.

(** *** Predicates on the scene data *)

Definition inBounds (i j : Z) : Prop := 0 <= i < w /\ 0 <= j < h.

(** [this.blocks] holds the block objects made by [createBlocks]: the
    same objects at the same places, only their [isWall] may differ. *)
Definition blocks_created (bs : list (list Block)) : Prop :=
  (fun column : list Block => Block_set_isWall false <$> column) <$> bs = createBlocks.

(** The cell (i, j) exists and is not a wall. *)
Definition open_cell (i j : Z) (s : SceneData) : Prop :=
  exists block,
    getBlock i j s = Returned (Some block) s /\ isWall block = false.

(** The cell the cat stands on exists and is not a wall. *)
Definition cat_on_open_cell (s : SceneData) : Prop :=
  open_cell (cat_i (cat s)) (cat_j (cat s)) s.

(** The scene data as a click finds it once the animation is stopped
    (lines 159-161). *)
Definition anims_stopped (s : SceneData) : SceneData :=
  if anims_isPlaying (cat s) then with_cat (Cat_anims_stop (cat s)) s else s.

(** The scene data at the call of [isCaught], line 176: the animation
    stopped and the clicked block turned into a wall. *)
Definition wall_placed (i j : Z) (s : SceneData) : SceneData :=
  with_blocks
    (alter (alter (Block_set_isWall true) (Z.to_nat j)) (Z.to_nat i) (blocks s))
    (anims_stopped s).

(** The scene data at the call of [step], line 182. *)
Definition before_step (i j : Z) (s : SceneData) : SceneData :=
  with_statusBar (MsgClicked i j) (wall_placed i j s).

(** Every block in [this.blocks] has [isWall = false]. *)
Definition no_walls (s : SceneData) : Prop :=
  Forall (Forall (fun block => isWall block = false)) (blocks s).

(** The model state of the game: the grid, the cat's position and the
    game state. *)
Definition same_model (s1 s2 : SceneData) : Prop :=
  blocks s1 = blocks s2 /\
  cat_i (cat s1) = cat_i (cat s2) /\
  cat_j (cat s1) = cat_j (cat s2) /\
  state s1 = state s2.

(** Modelled from the spec: the contract of the [Cat] methods, in
    [src/sprites/cat.ts].  [reset] "relocates to the fixed start
    Position; does not itself clear the grid"; [step], with no legal
    move, "returns false ... and does not move", otherwise it "moves to
    the chosen cell", one of "the agent's neighbor cells that are
    open"; the grid's walls change "only via a validated player
    move". *)
Record CatContract (start_i start_j : Z) : Prop := {
  reset_position : forall s,
    cat_i (cat (cat_reset catM s)) = start_i /\
    cat_j (cat (cat_reset catM s)) = start_j;
  reset_keeps_blocks : forall s, blocks (cat_reset catM s) = blocks s;
  step_keeps_blocks : forall s, blocks (snd (step catM s)) = blocks s;
  step_false_stays : forall s,
    fst (step catM s) = false ->
    cat_i (cat (snd (step catM s))) = cat_i (cat s) /\
    cat_j (cat (snd (step catM s))) = cat_j (cat s);
  step_true_moves : forall s,
    fst (step catM s) = true ->
    In (cat_i (cat (snd (step catM s))), cat_j (cat (snd (step catM s))))
       (getNeighbours (cat_i (cat s)) (cat_j (cat s))) /\
    open_cell (cat_i (cat (snd (step catM s)))) (cat_j (cat (snd (step catM s)))) s
}.
End Scene.
End MainScene.
Import MainScene.

(** ** A reference cat *)

(** Modelled from the spec: the [Cat] class of [src/sprites/cat.ts], as
    sections 4.2 and 4.3 describe the agent, to run the scene on concrete
    boards.  [isCaught] is the breadth-first enclosure test of 4.2 (true
    iff no boundary cell is reached from the cat's cell through open
    cells, cells marked when enqueued, true too when the cat has no cell
    to stand on).  [step] moves to an open neighbour and concedes, without
    moving, when there is none; in the traversal from the cat's cell every
    open neighbour is one hop away, so the tie-break decides and the first
    one in the enumeration order of [getNeighbours] is taken.  [reset]
    relocates the cat to the fixed start position. *)
Module RefCat.
Section RefCat.
Context (w h : Z) (start_i start_j : Z).

Definition is_open (s : SceneData) (p : Z * Z) : bool :=
  match getBlock w h (fst p) (snd p) s with
  | Returned (Some block) _ => negb (isWall block)
  | _ => false
  end.

Definition on_boundary (p : Z * Z) : bool :=
  (fst p =? 0) || (fst p =? w - 1) || (snd p =? 0) || (snd p =? h - 1).

Definition same_cell (p q : Z * Z) : bool :=
  (fst p =? fst q) && (snd p =? snd q).

Fixpoint reaches_boundary (s : SceneData) (fuel : nat)
    (queue visited : list (Z * Z)) : bool :=
  match fuel, queue with
  | O, _ | _, [] => false
  | S fuel', p :: rest =>
      if on_boundary p then true
      else
        let fresh :=
          List.filter
            (fun q => is_open s q && negb (existsb (same_cell q) visited))
            (getNeighbours (fst p) (snd p)) in
        reaches_boundary s fuel' (rest ++ fresh) (visited ++ fresh)
  end.

Definition isEnclosed (s : SceneData) (start : Z * Z) : bool :=
  if is_open s start then
    negb (reaches_boundary s (S (Z.to_nat (w * h))) [start] [start])
  else true.

Definition ref_isCaught (s : SceneData) : bool :=
  isEnclosed s (cat_i (cat s), cat_j (cat s)).

Definition ref_step (s : SceneData) : bool * SceneData :=
  match List.find (is_open s) (getNeighbours (cat_i (cat s)) (cat_j (cat s))) with
  | Some (i', j') =>
      (true,
       with_cat {| cat_i := i'; cat_j := j';
                   anims_isPlaying := anims_isPlaying (cat s) |} s)
  | None => (false, s)
  end.

Definition ref_reset (s : SceneData) : SceneData :=
  with_cat {| cat_i := start_i; cat_j := start_j; anims_isPlaying := false |} s.

Definition ref_cat : CatMethods :=
  {| isCaught := ref_isCaught; step := ref_step; cat_reset := ref_reset |}.

(** Modelled from the spec: the same cat emitting "escaped" during its
    step, "when the agent successfully moves onto a cell that is on the
    grid boundary"; the scene's handler for the event then runs. *)
Definition escaping_step (s : SceneData) : bool * SceneData :=
  let '(moved, s') := ref_step s in
  if moved && on_boundary (cat_i (cat s'), cat_j (cat s')) then
    match on_escaped s' with
    | Returned _ s'' | Thrown s'' => (true, s'')
    end
  else (moved, s').

Definition escaping_cat : CatMethods :=
  {| isCaught := ref_isCaught; step := escaping_step; cat_reset := ref_reset |}.
End RefCat.
End RefCat.

(** ** Concrete boards *)

Module Boards.
(** A 3 x 3 board; [walls] lists the cells that are walls. *)
Definition board3 (walls : list (Z * Z)) : list (list Block) :=
  (fun column : list Block =>
     (fun block =>
        Block_set_isWall
          (existsb (RefCat.same_cell (block_i block, block_j block)) walls) block)
     <$> column)
  <$> createBlocks 3 3.

Definition cat3 : CatMethods := RefCat.ref_cat 3 3 1 1.

(** The cat in the corner (0, 0), its neighbour (1, 0) walled. *)
Definition corner : SceneData :=
  {| blocks := board3 [(1, 0)];
     cat := {| cat_i := 0; cat_j := 0; anims_isPlaying := true |};
     statusBar := MsgClicked 1 0;
     state := PLAYING |}.

(** The cat in the centre, five of its six neighbours walled. *)
Definition nearly_caught : SceneData :=
  {| blocks := board3 [(0, 1); (1, 0); (2, 0); (2, 1); (2, 2)];
     cat := {| cat_i := 1; cat_j := 1; anims_isPlaying := false |};
     statusBar := MsgClicked 2 2;
     state := PLAYING |}.

(** A fresh board, the cat in the centre. *)
Definition fresh : SceneData :=
  {| blocks := board3 [];
     cat := {| cat_i := 1; cat_j := 1; anims_isPlaying := false |};
     statusBar := MsgStart;
     state := PLAYING |}.

Definition escaping3 : CatMethods := RefCat.escaping_cat 3 3 1 1.

(** A game that has been won. *)
Definition won : SceneData :=
  {| blocks := board3 [(0, 1); (1, 0); (2, 0); (2, 1); (2, 2); (1, 2)];
     cat := {| cat_i := 1; cat_j := 1; anims_isPlaying := false |};
     statusBar := MsgNoWayOut;
     state := WIN |}.
End Boards.

Example nearly_caught_click :
  returned (playerClick 3 3 Boards.cat3 1 2 Boards.nearly_caught) =
  Some (false, with_state WIN (with_statusBar MsgNoWayOut (wall_placed 1 2 Boards.nearly_caught))).
Proof. vm_compute. reflexivity. Qed.

Example corner_click :
  returned (playerClick 3 3 Boards.cat3 0 1 Boards.corner) =
  Some (true, with_state WIN (with_statusBar MsgNoWayOut (wall_placed 0 1 Boards.corner))).
Proof. vm_compute. reflexivity. Qed.

(** ** The neighbourhood *)

Lemma land_1_even (j : Z) : (Z.land j 1 =? 0) = Z.even j.
Proof.
  change 1 with (Z.ones 1). rewrite Z.land_ones by lia.
  change (2 ^ 1) with 2. rewrite Zmod_even.
  destruct (Z.even j); reflexivity.
Qed.

Lemma even_half (j : Z) :
  (Z.even j = true /\ j = 2 * (j / 2)) \/ (Z.even j = false /\ j = 2 * (j / 2) + 1).
Proof.
  pose proof (Z.div_mod j 2 ltac:(lia)) as D.
  rewrite Zmod_even in D. destruct (Z.even j); [left | right]; split; auto; lia.
Qed.

(** C1: for every cell (i, j), getNeighbours returns six pairs in the
    order left, top-left, top-right, right, bottom-right, bottom-left,
    with left = (i-1, j) and right = (i+1, j); for even j the diagonal
    ones are (i-1, j-1), (i, j-1), (i, j+1), (i-1, j+1), for odd j they
    are (i, j-1), (i+1, j-1), (i+1, j+1), (i, j+1). *)
Theorem getNeighbours_fixed_order (i j : Z) :
  let left := (i - 1, j) in
  let right := (i + 1, j) in
  let top_left := if Z.even j then (i - 1, j - 1) else (i, j - 1) in
  let top_right := if Z.even j then (i, j - 1) else (i + 1, j - 1) in
  let bottom_left := if Z.even j then (i - 1, j + 1) else (i, j + 1) in
  let bottom_right := if Z.even j then (i, j + 1) else (i + 1, j + 1) in
  getNeighbours i j = [left; top_left; top_right; right; bottom_right; bottom_left].
Proof.
  unfold getNeighbours. rewrite land_1_even. destruct (Z.even j); reflexivity.
Qed.

Lemma getNeighbours_by_parity (i j : Z) :
  getNeighbours i j =
    if Z.even j then
      [(i - 1, j); (i - 1, j - 1); (i, j - 1); (i + 1, j); (i, j + 1); (i - 1, j + 1)]
    else
      [(i - 1, j); (i, j - 1); (i + 1, j - 1); (i + 1, j); (i + 1, j + 1); (i, j + 1)].
Proof.
  unfold getNeighbours. rewrite land_1_even. destruct (Z.even j); reflexivity.
Qed.

Lemma getNeighbours_length (i j : Z) : length (getNeighbours i j) = 6%nat.
Proof. rewrite getNeighbours_by_parity. destruct (Z.even j); reflexivity. Qed.

Lemma getNeighbours_irreflexive (i j : Z) (p : Z * Z) :
  In p (getNeighbours i j) -> p <> (i, j).
Proof.
  rewrite getNeighbours_by_parity.
  destruct (Z.even j); simpl; intros H E; subst p;
    repeat (destruct H as [H | H]; [inversion H; lia |]); exact H.
Qed.

Ltac parity_cases a :=
  let E := fresh "E" in let Q := fresh "Q" in
  destruct (even_half a) as [[E Q] | [E Q]]; rewrite E.

Lemma getNeighbours_symmetric (i j a b : Z) :
  In (i, j) (getNeighbours a b) -> In (a, b) (getNeighbours i j).
Proof.
  rewrite !getNeighbours_by_parity.
  parity_cases b; parity_cases j; simpl; intros H;
    repeat (destruct H as [H | H];
            [inversion H; subst;
             first [ exfalso; lia
                   | solve [ repeat (first [ left; f_equal; lia | right ]) ] ] |]);
    destruct H.
Qed.

(** C8: for every in-bounds (i, j), getNeighbours returns exactly six
    pairs, each different from (i, j), and the relation is symmetric:
    whenever (i, j) is among the neighbours of (a, b), (a, b) is among
    the neighbours of (i, j). *)
Theorem getNeighbours_six_distinct_symmetric (w h i j : Z) :
  inBounds w h i j ->
  length (getNeighbours i j) = 6%nat /\
  (forall p, In p (getNeighbours i j) -> p <> (i, j)) /\
  (forall a b, In (i, j) (getNeighbours a b) -> In (a, b) (getNeighbours i j)).
Proof.
  intros _. split; [apply getNeighbours_length |].
  split; [apply getNeighbours_irreflexive |].
  intros a b. apply getNeighbours_symmetric.
Qed.

(** ** The scene: lookups *)

Section SceneTheory.
Context (w h : Z) (catM : CatMethods).

Local Abbreviation getBlock := (MainScene.getBlock w h).
Local Abbreviation inBounds := (MainScene.inBounds w h).
Local Abbreviation createBlocks := (MainScene.createBlocks w h).
Local Abbreviation blocks_created := (MainScene.blocks_created w h).
Local Abbreviation reset := (MainScene.reset catM).
Local Abbreviation playerClick := (MainScene.playerClick w h catM).
Local Abbreviation open_cell := (MainScene.open_cell w h).
Local Abbreviation cat_on_open_cell := (MainScene.cat_on_open_cell w h).
Local Abbreviation CatContract := (MainScene.CatContract w h catM).
Local Abbreviation handle_all := (MainScene.handle_all w h catM).

Lemma bounds_test (i j : Z) :
  (0 <=? i) && (i <? w) && (0 <=? j) && (j <? h) = true <-> inBounds i j.
Proof. unfold MainScene.inBounds. rewrite !andb_true_iff. lia. Qed.

Lemma getBlock_out_of_bounds (i j : Z) (s : SceneData) :
  ~ inBounds i j -> getBlock i j s = Returned None s.
Proof.
  intros N. unfold MainScene.getBlock.
  destruct ((0 <=? i) && (i <? w) && (0 <=? j) && (j <? h)) eqn:B.
  - apply bounds_test in B. contradiction.
  - reflexivity.
Qed.

Lemma getBlock_in_bounds (i j : Z) (s : SceneData) :
  inBounds i j ->
  getBlock i j s =
    match blocks s !! Z.to_nat i with
    | None => Thrown s
    | Some column => Returned (column !! Z.to_nat j) s
    end.
Proof.
  intros B. apply bounds_test in B. unfold MainScene.getBlock. rewrite B. cbn.
  unfold bind, gets. destruct (blocks s !! Z.to_nat i); reflexivity.
Qed.

Lemma getBlock_cases (i j : Z) (s : SceneData) :
  getBlock i j s = Thrown s \/ exists ob, getBlock i j s = Returned ob s.
Proof.
  destruct (decide (inBounds i j)) as [B | B].
  - rewrite (getBlock_in_bounds _ _ _ B).
    destruct (blocks s !! Z.to_nat i); eauto.
  - right. exists None. apply getBlock_out_of_bounds, B.
Qed.

Lemma getBlock_Some (i j : Z) (s s' : SceneData) (block : Block) :
  getBlock i j s = Returned (Some block) s' ->
  inBounds i j /\
  exists column,
    blocks s !! Z.to_nat i = Some column /\ column !! Z.to_nat j = Some block.
Proof.
  intros G. destruct (decide (inBounds i j)) as [B | B].
  - split; [exact B |]. rewrite (getBlock_in_bounds _ _ _ B) in G.
    destruct (blocks s !! Z.to_nat i) as [column |]; [| discriminate].
    exists column. split; [reflexivity | congruence].
  - rewrite (getBlock_out_of_bounds _ _ _ B) in G. discriminate.
Qed.

(** [getBlock] reads [this.blocks] only. *)
Lemma getBlock_same_blocks (i j : Z) (s1 s2 : SceneData) (ob : option Block) :
  blocks s1 = blocks s2 ->
  getBlock i j s1 = Returned ob s1 -> getBlock i j s2 = Returned ob s2.
Proof.
  intros E G. destruct (decide (inBounds i j)) as [B | B].
  - rewrite (getBlock_in_bounds _ _ _ B) in G.
    rewrite (getBlock_in_bounds _ _ _ B), <- E.
    destruct (blocks s1 !! Z.to_nat i); [| discriminate].
    congruence.
  - rewrite (getBlock_out_of_bounds _ _ _ B) in G.
    rewrite (getBlock_out_of_bounds _ _ _ B). congruence.
Qed.

Lemma createBlocks_lookup (i j : Z) :
  inBounds i j ->
  exists column,
    createBlocks !! Z.to_nat i = Some column /\
    column !! Z.to_nat j = Some (new_Block i j).
Proof.
  intros [Hi Hj]. unfold MainScene.createBlocks.
  eexists. rewrite list_lookup_fmap, lookup_seqZ_lt by lia. cbn.
  split; [reflexivity |].
  rewrite list_lookup_fmap, lookup_seqZ_lt by lia. cbn.
  f_equal. f_equal; lia.
Qed.

Lemma blocks_created_lookup (bs : list (list Block)) (i j : Z) :
  blocks_created bs -> inBounds i j ->
  exists column block,
    bs !! Z.to_nat i = Some column /\ column !! Z.to_nat j = Some block /\
    block_i block = i /\ block_j block = j.
Proof.
  intros C B. destruct (createBlocks_lookup i j B) as (column0 & L1 & L2).
  unfold MainScene.blocks_created in C. rewrite <- C in L1.
  rewrite list_lookup_fmap in L1.
  destruct (bs !! Z.to_nat i) as [column |] eqn:Lc; [| discriminate].
  cbn in L1. injection L1 as <-.
  rewrite list_lookup_fmap in L2.
  destruct (column !! Z.to_nat j) as [block |] eqn:Lb; [| discriminate].
  cbn in L2. injection L2 as Ei Ej.
  exists column, block. auto.
Qed.

Lemma createBlocks_created : blocks_created createBlocks.
Proof.
  unfold MainScene.blocks_created, MainScene.createBlocks.
  rewrite <- list_fmap_compose. apply list_fmap_ext. intros _ i _. cbn.
  rewrite <- list_fmap_compose. apply list_fmap_ext. intros _ j _. reflexivity.
Qed.

Lemma blocks_created_assign (bs : list (list Block)) (i j : nat) (v : bool) :
  blocks_created bs ->
  blocks_created (alter (alter (Block_set_isWall v) j) i bs).
Proof.
  unfold MainScene.blocks_created. intros <-.
  apply list_eq. intros i'. rewrite !list_lookup_fmap.
  destruct (decide (i = i')) as [<- | N].
  - rewrite list_lookup_alter_eq. destruct (bs !! i) as [column |]; [| reflexivity].
    cbn. f_equal. apply list_eq. intros j'. rewrite !list_lookup_fmap.
    destruct (decide (j = j')) as [<- | N'].
    + rewrite list_lookup_alter_eq. destruct (column !! j); reflexivity.
    + rewrite list_lookup_alter_ne by exact N'. reflexivity.
  - rewrite list_lookup_alter_ne by exact N. reflexivity.
Qed.

Lemma blocks_created_clear (bs : list (list Block)) :
  blocks_created bs ->
  blocks_created ((fun column : list Block => Block_set_isWall false <$> column) <$> bs).
Proof.
  unfold MainScene.blocks_created. intros <-.
  rewrite <- list_fmap_compose. apply list_fmap_ext. intros _ column _. cbn.
  rewrite <- list_fmap_compose. apply list_fmap_ext. intros _ block _. reflexivity.
Qed.

(** C7: getBlock(i, j) returns the cell - the block created for (i, j)
    and stored at this.blocks[i][j] - when 0 <= i < w and 0 <= j < h,
    and otherwise returns null: a normal return of an absent result,
    not a raised error. *)
Theorem getBlock_bounds_checked (i j : Z) (s : SceneData) :
  (blocks_created (blocks s) -> inBounds i j ->
   exists column block,
     getBlock i j s = Returned (Some block) s /\
     blocks s !! Z.to_nat i = Some column /\
     column !! Z.to_nat j = Some block /\
     block_i block = i /\ block_j block = j) /\
  (~ inBounds i j -> getBlock i j s = Returned None s).
Proof.
  split.
  - intros C B.
    destruct (blocks_created_lookup _ i j C B) as (column & block & L1 & L2 & Ei & Ej).
    exists column, block. rewrite (getBlock_in_bounds _ _ _ B), L1, L2. auto.
  - apply getBlock_out_of_bounds.
Qed.

(** ** The scene: one turn *)

(** The scene data [reset] leaves behind. *)
Lemma reset_run (s : SceneData) :
  reset s =
    Returned tt
      (with_statusBar MsgStart
         (with_state PLAYING
            (with_blocks
               ((fun column : list Block => Block_set_isWall false <$> column)
                  <$> blocks (cat_reset catM s))
               (cat_reset catM s)))).
Proof. reflexivity. Qed.

Lemma playerClick_not_playing (i j : Z) (s : SceneData) :
  state s <> PLAYING ->
  playerClick i j s =
    match reset (with_statusBar MsgGameOver s) with
    | Returned _ s' => Returned false s'
    | Thrown s' => Thrown s'
    end.
Proof.
  intros N. unfold MainScene.playerClick, bind at 1, gets at 1.
  destruct (state s); [contradiction | reflexivity | reflexivity].
Qed.

Lemma getBlock_anims_stopped (i j : Z) (s : SceneData) (ob : option Block) :
  getBlock i j s = Returned ob s ->
  getBlock i j (anims_stopped s) = Returned ob (anims_stopped s).
Proof.
  apply getBlock_same_blocks. unfold anims_stopped.
  destruct (anims_isPlaying (cat s)); reflexivity.
Qed.

(** A click while playing, as a case analysis on the block found. *)
Lemma playerClick_playing (i j : Z) (s : SceneData) :
  state s = PLAYING ->
  playerClick i j s =
    match getBlock i j (anims_stopped s) with
    | Thrown s' => Thrown s'
    | Returned None _ =>
        Returned false (with_statusBar MsgNoSuchBlock (anims_stopped s))
    | Returned (Some block) _ =>
        if isWall block then
          Returned false (with_statusBar MsgAlreadyWall (anims_stopped s))
        else if (cat_i (cat s) =? i) && (cat_j (cat s) =? j) then
          Returned false (with_statusBar MsgCatIsHere (anims_stopped s))
        else if isCaught catM (wall_placed i j s) then
          Returned false
            (with_state WIN
               (with_statusBar MsgNoWayOut
                  (with_statusBar MsgNoWayOut (wall_placed i j s))))
        else
          let '(result, s') := step catM (before_step i j s) in
          if result then Returned true s'
          else
            Returned true
              (with_state WIN
                 (with_statusBar MsgNoWayOut (with_statusBar MsgCatConcedes s')))
    end.
Proof.
  intros P.
  unfold MainScene.playerClick, MainScene.assign_isWall, MainScene.set_state,
    MainScene.setStatusText, wall_placed, before_step, anims_stopped,
    bind, gets, modify, when, ret.
  rewrite P. cbn.
  destruct (anims_isPlaying (cat s)) eqn:A;
    match goal with
    | |- context [getBlock i j ?s0] =>
        destruct (getBlock_cases i j s0) as [G | [[block |] G]]; rewrite G
    end; try reflexivity;
    (destruct (isWall block); [reflexivity |]); cbn;
    (destruct ((cat_i (cat s) =? i) && (cat_j (cat s) =? j)); [reflexivity |]);
    unfold wall_placed, anims_stopped; rewrite A; cbn;
    match goal with
    | |- context [isCaught catM ?s1] =>
        destruct (isCaught catM s1); [reflexivity |]
    end;
    match goal with
    | |- context [step catM ?s2] =>
        destruct (step catM s2) as [[|] s']; reflexivity
    end.
Qed.

Lemma clear_no_walls (bs : list (list Block)) :
  Forall (Forall (fun block => isWall block = false))
    ((fun column : list Block => Block_set_isWall false <$> column) <$> bs).
Proof.
  apply Forall_fmap, Forall_true. intros column.
  apply Forall_fmap, Forall_true. intros block. reflexivity.
Qed.

(** Clearing every [isWall] keeps each block in its place. *)
Lemma getBlock_cleared (a b : Z) (s s2 : SceneData) (block : Block) :
  blocks s2 = (fun column : list Block => Block_set_isWall false <$> column) <$> blocks s ->
  getBlock a b s = Returned (Some block) s ->
  getBlock a b s2 = Returned (Some (Block_set_isWall false block)) s2.
Proof.
  intros E G. destruct (getBlock_Some _ _ _ _ _ G) as (B & column & L1 & L2).
  rewrite (getBlock_in_bounds _ _ _ B), E, list_lookup_fmap, L1. cbn.
  rewrite list_lookup_fmap, L2. reflexivity.
Qed.

(** C5: a click received while the state is WIN or LOSE returns false
    and runs reset (on the scene whose status bar announces the
    restart); afterwards the state is PLAYING and every block has
    isWall = false: the grid is the one the cat's reset left, block for
    block, with each isWall cleared, so that - the cat's reset leaving
    the grid alone - getBlock finds every cell it found before the click,
    now with isWall = false.  The cat is where its reset put it and the
    status bar shows the start text. *)
Theorem playerClick_game_over_resets (i j : Z) (s : SceneData) :
  state s <> PLAYING ->
  exists s',
    playerClick i j s = Returned false s' /\
    reset (with_statusBar MsgGameOver s) = Returned tt s' /\
    state s' = PLAYING /\
    no_walls s' /\
    blocks s' =
      (fun column : list Block => Block_set_isWall false <$> column)
        <$> blocks (cat_reset catM (with_statusBar MsgGameOver s)) /\
    cat s' = cat (cat_reset catM (with_statusBar MsgGameOver s)) /\
    statusBar s' = MsgStart /\
    (blocks (cat_reset catM (with_statusBar MsgGameOver s)) = blocks s ->
     forall a b block,
       getBlock a b s = Returned (Some block) s ->
       getBlock a b s' = Returned (Some (Block_set_isWall false block)) s').
Proof.
  intros N. rewrite (playerClick_not_playing _ _ _ N), reset_run.
  eexists. split; [reflexivity |]. split; [reflexivity |].
  split; [reflexivity |]. split; [apply clear_no_walls |].
  split; [reflexivity |]. split; [reflexivity |]. split; [reflexivity |].
  intros Eb a b block G. apply (getBlock_cleared a b s); [| exact G].
  cbn. rewrite Eb. reflexivity.
Qed.

(** C4: a click while PLAYING whose target is out of bounds, already a
    wall, or the cat's own cell returns false and changes no state: the
    grid is the same (no isWall flips), the cat's position is the same,
    and the state is still PLAYING. *)
Theorem playerClick_rejects_invalid (i j : Z) (s : SceneData) :
  state s = PLAYING ->
  blocks_created (blocks s) ->
  ~ inBounds i j \/
  (exists block, getBlock i j s = Returned (Some block) s /\ isWall block = true) \/
  (cat_i (cat s) = i /\ cat_j (cat s) = j) ->
  exists s',
    playerClick i j s = Returned false s' /\
    blocks s' = blocks s /\
    cat_i (cat s') = cat_i (cat s) /\
    cat_j (cat s') = cat_j (cat s) /\
    state s' = PLAYING.
Proof.
  intros P C T. rewrite (playerClick_playing _ _ _ P).
  assert (Hs : forall t,
    blocks (with_statusBar t (anims_stopped s)) = blocks s /\
    cat_i (cat (with_statusBar t (anims_stopped s))) = cat_i (cat s) /\
    cat_j (cat (with_statusBar t (anims_stopped s))) = cat_j (cat s) /\
    state (with_statusBar t (anims_stopped s)) = PLAYING).
  { intros t. unfold anims_stopped.
    destruct (anims_isPlaying (cat s)); cbn; auto. }
  destruct (decide (inBounds i j)) as [B | B].
  - destruct (blocks_created_lookup _ i j C B) as (column & block & L1 & L2 & _).
    assert (G : getBlock i j s = Returned (Some block) s)
      by (rewrite (getBlock_in_bounds _ _ _ B), L1, L2; reflexivity).
    rewrite (getBlock_anims_stopped _ _ _ _ G).
    destruct (isWall block) eqn:W; [eexists; split; [reflexivity | apply Hs] |].
    destruct T as [T | [(block' & G' & W') | [Ti Tj]]].
    + contradiction.
    + congruence.
    + assert (E : (cat_i (cat s) =? i) && (cat_j (cat s) =? j) = true)
        by (apply andb_true_iff; lia).
      rewrite E. eexists; split; [reflexivity | apply Hs].
  - rewrite (getBlock_out_of_bounds _ _ _ B).
    eexists; split; [reflexivity | apply Hs].
Qed.

(** C3: a click while PLAYING on a valid target (a block that exists,
    is not a wall and is not the cat's cell): once the block is a wall,
    if isCaught() is true, playerClick sets the state to WIN and returns
    false, and the cat has not moved. *)
Theorem playerClick_caught_wins (i j : Z) (s : SceneData) (block : Block) :
  state s = PLAYING ->
  getBlock i j s = Returned (Some block) s ->
  isWall block = false ->
  ~ (cat_i (cat s) = i /\ cat_j (cat s) = j) ->
  isCaught catM (wall_placed i j s) = true ->
  exists s',
    playerClick i j s = Returned false s' /\
    state s' = WIN /\
    cat_i (cat s') = cat_i (cat s) /\
    cat_j (cat s') = cat_j (cat s) /\
    blocks s' = blocks (wall_placed i j s).
Proof.
  intros P G W N K. rewrite (playerClick_playing _ _ _ P).
  rewrite (getBlock_anims_stopped _ _ _ _ G), W.
  destruct ((cat_i (cat s) =? i) && (cat_j (cat s) =? j)) eqn:E.
  { apply andb_true_iff in E. destruct N. lia. }
  rewrite K. eexists. split; [reflexivity |].
  unfold wall_placed, anims_stopped.
  destruct (anims_isPlaying (cat s)); cbn; auto.
Qed.

(** C2: an accepted click while PLAYING after which the cat is not
    enclosed: if step() returns false, playerClick leaves the state at
    WIN, not LOSE. *)
Theorem playerClick_concession_wins (i j : Z) (s : SceneData) (block : Block) :
  state s = PLAYING ->
  getBlock i j s = Returned (Some block) s ->
  isWall block = false ->
  ~ (cat_i (cat s) = i /\ cat_j (cat s) = j) ->
  isCaught catM (wall_placed i j s) = false ->
  fst (step catM (before_step i j s)) = false ->
  exists result s',
    playerClick i j s = Returned result s' /\
    state s' = WIN /\
    state s' <> LOSE.
Proof.
  intros P G W N K F. rewrite (playerClick_playing _ _ _ P).
  rewrite (getBlock_anims_stopped _ _ _ _ G), W.
  destruct ((cat_i (cat s) =? i) && (cat_j (cat s) =? j)) eqn:E.
  { apply andb_true_iff in E. destruct N. lia. }
  rewrite K. destruct (step catM (before_step i j s)) as [result s1].
  cbn in F. subst result.
  eexists _, _. split; [reflexivity |]. cbn. split; [reflexivity | discriminate].
Qed.

(** C10: on an accepted click, a WIN is reported with either return
    value: when the cat is not enclosed and step() returns false the
    state becomes WIN and playerClick returns true; when the cat is
    enclosed the state becomes WIN and playerClick returns false. *)
Theorem playerClick_win_return_values (i j : Z) (s : SceneData) (block : Block) :
  state s = PLAYING ->
  getBlock i j s = Returned (Some block) s ->
  isWall block = false ->
  ~ (cat_i (cat s) = i /\ cat_j (cat s) = j) ->
  (isCaught catM (wall_placed i j s) = false ->
   fst (step catM (before_step i j s)) = false ->
   exists s', playerClick i j s = Returned true s' /\ state s' = WIN) /\
  (isCaught catM (wall_placed i j s) = true ->
   exists s', playerClick i j s = Returned false s' /\ state s' = WIN).
Proof.
  intros P G W N. rewrite (playerClick_playing _ _ _ P).
  rewrite (getBlock_anims_stopped _ _ _ _ G), W.
  destruct ((cat_i (cat s) =? i) && (cat_j (cat s) =? j)) eqn:E.
  { apply andb_true_iff in E. destruct N. lia. }
  split.
  - intros K F. rewrite K.
    destruct (step catM (before_step i j s)) as [result s1].
    cbn in F. subst result. eexists. split; reflexivity.
  - intros K. rewrite K. eexists. split; reflexivity.
Qed.

(** ** The scene: the cat is never on a wall *)

Lemma open_cell_same_blocks (i j : Z) (s1 s2 : SceneData) :
  blocks s1 = blocks s2 -> open_cell i j s1 -> open_cell i j s2.
Proof.
  intros E (block & G & W). exists block. split; [| exact W].
  exact (getBlock_same_blocks _ _ _ _ _ E G).
Qed.

Lemma cat_on_open_cell_ext (s1 s2 : SceneData) :
  blocks s1 = blocks s2 ->
  cat_i (cat s1) = cat_i (cat s2) ->
  cat_j (cat s1) = cat_j (cat s2) ->
  cat_on_open_cell s1 -> cat_on_open_cell s2.
Proof.
  unfold MainScene.cat_on_open_cell. intros E <- <-. apply open_cell_same_blocks, E.
Qed.

Lemma blocks_wall_placed (i j : Z) (s : SceneData) :
  blocks (wall_placed i j s) =
    alter (alter (Block_set_isWall true) (Z.to_nat j)) (Z.to_nat i) (blocks s).
Proof.
  unfold wall_placed, anims_stopped. destruct (anims_isPlaying (cat s)); reflexivity.
Qed.

Lemma cat_wall_placed (i j : Z) (s : SceneData) :
  cat_i (cat (wall_placed i j s)) = cat_i (cat s) /\
  cat_j (cat (wall_placed i j s)) = cat_j (cat s).
Proof.
  unfold wall_placed, anims_stopped. destruct (anims_isPlaying (cat s)); auto.
Qed.

(** Turning the block of an in-bounds cell into a wall leaves every
    other cell as it was. *)
Lemma open_cell_wall_placed (i j a b : Z) (s : SceneData) :
  inBounds i j -> ~ (a = i /\ b = j) ->
  open_cell a b s -> open_cell a b (wall_placed i j s).
Proof.
  intros [Hi Hj] N (block & G & W).
  destruct (getBlock_Some _ _ _ _ _ G) as (B & column & L1 & L2).
  pose proof B as [Ha Hb].
  exists block. split; [| exact W].
  rewrite (getBlock_in_bounds _ _ _ B), blocks_wall_placed.
  destruct (decide (a = i)) as [-> | Na].
  - rewrite list_lookup_alter_eq, L1. cbn.
    rewrite list_lookup_alter_ne by lia. rewrite L2. reflexivity.
  - rewrite list_lookup_alter_ne by lia. rewrite L1, L2. reflexivity.
Qed.

Lemma reset_opens_start (start_i start_j : Z) (s : SceneData) :
  CatContract start_i start_j ->
  inBounds start_i start_j ->
  blocks_created (blocks s) ->
  exists s',
    reset s = Returned tt s' /\
    blocks_created (blocks s') /\
    cat_on_open_cell s' /\
    forall i j, inBounds i j -> open_cell i j s'.
Proof.
  intros K B C. rewrite reset_run. eexists. split; [reflexivity |].
  destruct (reset_position _ _ _ _ _ K s) as [Pi Pj].
  pose proof (reset_keeps_blocks _ _ _ _ _ K s) as Eb.
  assert (C' : blocks_created
                 ((fun column : list Block => Block_set_isWall false <$> column)
                    <$> blocks (cat_reset catM s)))
    by (rewrite Eb; apply blocks_created_clear, C).
  assert (O : forall i j, inBounds i j ->
                open_cell i j
                  (with_statusBar MsgStart
                     (with_state PLAYING
                        (with_blocks
                           ((fun column : list Block => Block_set_isWall false <$> column)
                              <$> blocks (cat_reset catM s))
                           (cat_reset catM s))))).
  { intros i j Bij.
    destruct (blocks_created_lookup _ i j C' Bij) as (column & block & L1 & L2 & _).
    exists block. split.
    - rewrite (getBlock_in_bounds _ _ _ Bij). cbn. rewrite L1, L2. reflexivity.
    - pose proof (clear_no_walls (blocks (cat_reset catM s))) as F.
      rewrite Forall_lookup in F. specialize (F _ _ L1).
      rewrite Forall_lookup in F. exact (F _ _ L2). }
  split; [exact C' |]. split; [| exact O].
  unfold MainScene.cat_on_open_cell. cbn. rewrite Pi, Pj. apply O, B.
Qed.

Lemma playerClick_keeps_cat_open (start_i start_j i j : Z) (s : SceneData) :
  CatContract start_i start_j ->
  inBounds start_i start_j ->
  blocks_created (blocks s) ->
  cat_on_open_cell s ->
  exists result s',
    playerClick i j s = Returned result s' /\
    blocks_created (blocks s') /\
    cat_on_open_cell s' /\
    open_cell (cat_i (cat s)) (cat_j (cat s)) s'.
Proof.
  intros K B C O.
  destruct (GameState_eqb (state s) PLAYING) eqn:P.
  2: { (* the game is over: the click resets the scene *)
    assert (N : state s <> PLAYING) by (intros E; rewrite E in P; discriminate).
    rewrite (playerClick_not_playing _ _ _ N).
    destruct (reset_opens_start start_i start_j (with_statusBar MsgGameOver s) K B C)
      as (s' & R & C' & O' & A).
    rewrite R. exists false, s'. repeat split; try assumption.
    apply A. destruct O as (block & G & _).
    exact (proj1 (getBlock_Some _ _ _ _ _ G)). }
  assert (P' : state s = PLAYING) by (destruct (state s); [reflexivity | discriminate ..]).
  rewrite (playerClick_playing _ _ _ P').
  assert (Rej : forall t,
    blocks_created (blocks (with_statusBar t (anims_stopped s))) /\
    cat_on_open_cell (with_statusBar t (anims_stopped s)) /\
    open_cell (cat_i (cat s)) (cat_j (cat s)) (with_statusBar t (anims_stopped s))).
  { intros t. unfold MainScene.cat_on_open_cell, anims_stopped.
    destruct (anims_isPlaying (cat s)); cbn; repeat split; try exact C;
      (eapply open_cell_same_blocks; [| exact O]); reflexivity. }
  destruct (getBlock_cases i j s) as [G | [ob G]].
  { (* a missing column: excluded by [blocks_created] *)
    destruct (decide (inBounds i j)) as [Bij | Bij].
    - destruct (blocks_created_lookup _ i j C Bij) as (column & block & L1 & L2 & _).
      rewrite (getBlock_in_bounds _ _ _ Bij), L1 in G. discriminate.
    - rewrite (getBlock_out_of_bounds _ _ _ Bij) in G. discriminate. }
  rewrite (getBlock_anims_stopped _ _ _ _ G).
  destruct ob as [block |]; [| eexists _, _; split; [reflexivity | apply Rej]].
  destruct (isWall block); [eexists _, _; split; [reflexivity | apply Rej] |].
  destruct ((cat_i (cat s) =? i) && (cat_j (cat s) =? j)) eqn:E;
    [eexists _, _; split; [reflexivity | apply Rej] |].
  (* the click is accepted *)
  assert (N : ~ (cat_i (cat s) = i /\ cat_j (cat s) = j))
    by (intros [<- <-]; rewrite !Z.eqb_refl in E; discriminate).
  pose proof (proj1 (getBlock_Some _ _ _ _ _ G)) as Bij.
  pose proof (open_cell_wall_placed i j _ _ s Bij N O) as O1.
  pose proof (cat_wall_placed i j s) as [Ci Cj].
  assert (C1 : blocks_created (blocks (wall_placed i j s)))
    by (rewrite blocks_wall_placed; apply blocks_created_assign, C).
  assert (O1c : cat_on_open_cell (wall_placed i j s))
    by (unfold MainScene.cat_on_open_cell; rewrite Ci, Cj; exact O1).
  destruct (isCaught catM (wall_placed i j s)).
  { eexists _, _. split; [reflexivity |]. split; [exact C1 |]. split.
    - apply (cat_on_open_cell_ext (wall_placed i j s)); [reflexivity .. | exact O1c].
    - apply (open_cell_same_blocks _ _ (wall_placed i j s)); [reflexivity | exact O1]. }
  pose proof (step_keeps_blocks _ _ _ _ _ K (before_step i j s)) as Sb.
  pose proof (step_false_stays _ _ _ _ _ K (before_step i j s)) as Sf.
  pose proof (step_true_moves _ _ _ _ _ K (before_step i j s)) as St.
  destruct (step catM (before_step i j s)) as [result s2].
  assert (Eb : blocks (wall_placed i j s) = blocks s2) by (symmetry; exact Sb).
  destruct result.
  - destruct (St eq_refl) as [_ O2].
    eexists _, _. split; [reflexivity |]. rewrite <- Eb. split; [exact C1 |].
    split.
    + exact (open_cell_same_blocks _ _ (before_step i j s) s2 Eb O2).
    + exact (open_cell_same_blocks _ _ (wall_placed i j s) s2 Eb O1).
  - destruct (Sf eq_refl) as [Fi Fj].
    eexists _, _. split; [reflexivity |]. split; [| split].
    + change (blocks_created (blocks s2)). rewrite <- Eb. exact C1.
    + apply (cat_on_open_cell_ext (wall_placed i j s));
        [exact Eb | symmetry; exact Fi | symmetry; exact Fj | exact O1c].
    + apply (open_cell_same_blocks _ _ (wall_placed i j s)); [exact Eb | exact O1].
Qed.

(** After a reset, whatever the player does next, every handler
    completes and the cat is on an open cell. *)
Lemma cat_on_open_cell_always (start_i start_j : Z) (events : list Event) :
  CatContract start_i start_j ->
  inBounds start_i start_j ->
  forall s,
    blocks_created (blocks s) ->
    cat_on_open_cell s ->
    exists s',
      handle_all events s = Returned tt s' /\
      blocks_created (blocks s') /\
      cat_on_open_cell s'.
Proof.
  intros K B. induction events as [| e events IH]; intros s C O.
  - exists s. split; [reflexivity | auto].
  - cbn [MainScene.handle_all]. unfold bind at 1.
    destruct e as [i j | | |]; cbn [MainScene.handle].
    + destruct (playerClick_keeps_cat_open start_i start_j i j s K B C O)
        as (result & s1 & R & C1 & O1 & _).
      unfold bind at 1. rewrite R. cbn. apply IH; assumption.
    + destruct (reset_opens_start start_i start_j s K B C) as (s1 & R & C1 & O1 & _).
      rewrite R. apply IH; assumption.
    + apply IH; [exact C |].
      apply (cat_on_open_cell_ext s); [reflexivity .. | exact O].
    + apply IH; [exact C |].
      apply (cat_on_open_cell_ext s); [reflexivity .. | exact O].
Qed.

(** C6: the invariant "the cell at the cat's position is not a wall" is
    kept by every operation: from a scene where it holds, a click at any
    (i, j) and a reset both complete and leave the cat on an open cell;
    in particular the cell the cat stood on when the click arrived is
    not a wall afterwards.  The cat's methods are those of the
    specification (they obey [CatContract]) and the start position is a
    cell of the grid. *)
Theorem cat_never_on_wall (start_i start_j : Z) (s : SceneData) :
  CatContract start_i start_j ->
  inBounds start_i start_j ->
  blocks_created (blocks s) ->
  cat_on_open_cell s ->
  (forall i j, exists result s',
     playerClick i j s = Returned result s' /\
     blocks_created (blocks s') /\
     cat_on_open_cell s' /\
     open_cell (cat_i (cat s)) (cat_j (cat s)) s') /\
  (exists s',
     reset s = Returned tt s' /\
     blocks_created (blocks s') /\
     cat_on_open_cell s').
Proof.
  intros K B C O. split.
  - intros i j. exact (playerClick_keeps_cat_open start_i start_j i j s K B C O).
  - destruct (reset_opens_start start_i start_j s K B C) as (s' & R & C' & O' & _).
    exists s'. auto.
Qed.

(** C9: reset is idempotent: running it a second time yields the same
    model state (grid, cat position, game state; the status bar too) as
    running it once.  The cat's reset is the one of the specification
    ([CatContract]). *)
Theorem reset_idempotent (start_i start_j : Z) (s : SceneData) :
  CatContract start_i start_j ->
  exists s1 s2,
    reset s = Returned tt s1 /\
    reset s1 = Returned tt s2 /\
    same_model s2 s1 /\
    statusBar s2 = statusBar s1.
Proof.
  intros K. eexists _, _. split; [apply reset_run |]. split; [apply reset_run |].
  split; [| reflexivity].
  unfold same_model. cbn.
  rewrite !(reset_keeps_blocks _ _ _ _ _ K). cbn.
  destruct (reset_position _ _ _ _ _ K s) as [-> ->].
  match goal with
  | |- context [cat_reset catM ?x] =>
      destruct (reset_position _ _ _ _ _ K x) as [-> ->]
  end.
  repeat split.
  rewrite <- list_fmap_compose. apply list_fmap_ext. intros _ column _. cbn.
  rewrite <- list_fmap_compose. apply list_fmap_ext. intros _ block _. reflexivity.
Qed.
End SceneTheory.

(** ** The reference cat obeys the contract *)

Lemma ref_is_open (w h : Z) (s : SceneData) (p : Z * Z) :
  RefCat.is_open w h s p = true -> open_cell w h (fst p) (snd p) s.
Proof.
  unfold RefCat.is_open, open_cell. intros O.
  destruct (getBlock_cases w h (fst p) (snd p) s) as [G | [[block |] G]];
    rewrite G in O; try discriminate.
  exists block. split; [exact G |]. destruct (isWall block); [discriminate | reflexivity].
Qed.

Lemma ref_cat_contract (w h start_i start_j : Z) :
  CatContract w h (RefCat.ref_cat w h start_i start_j) start_i start_j.
Proof.
  constructor; cbn; intros s; unfold RefCat.ref_step; try (split; reflexivity);
    try reflexivity;
    destruct (find (RefCat.is_open w h s) (getNeighbours (cat_i (cat s)) (cat_j (cat s))))
      as [[i' j'] |] eqn:F; cbn; try reflexivity; try discriminate; try (split; reflexivity).
  intros _. apply find_some in F as [I O]. split; [exact I |].
  exact (ref_is_open w h s (i', j') O).
Qed.

(** ** The theorems at concrete boards *)

Lemma getNeighbours_six_distinct_symmetric_witness :
  inBounds 3 3 1 1 /\
  length (getNeighbours 1 1) = 6%nat /\
  (forall p, In p (getNeighbours 1 1) -> p <> (1, 1)) /\
  (forall a b, In (1, 1) (getNeighbours a b) -> In (a, b) (getNeighbours 1 1)).
Proof.
  assert (B : inBounds 3 3 1 1) by (unfold inBounds; lia).
  split; [exact B | exact (getNeighbours_six_distinct_symmetric 3 3 1 1 B)].
Defined.

Lemma corner_blocks_created : blocks_created 3 3 (blocks Boards.corner).
Proof. vm_compute. reflexivity. Defined.

Lemma getBlock_bounds_checked_witness :
  (exists column block,
     getBlock 3 3 1 0 Boards.corner = Returned (Some block) Boards.corner /\
     blocks Boards.corner !! Z.to_nat 1 = Some column /\
     column !! Z.to_nat 0 = Some block /\
     block_i block = 1 /\ block_j block = 0) /\
  getBlock 3 3 3 0 Boards.corner = Returned None Boards.corner.
Proof.
  destruct (getBlock_bounds_checked 3 3 1 0 Boards.corner) as [Inside _].
  destruct (getBlock_bounds_checked 3 3 3 0 Boards.corner) as [_ Outside].
  split.
  - apply Inside; [exact corner_blocks_created | unfold inBounds; lia].
  - apply Outside. unfold inBounds. lia.
Defined.

Lemma playerClick_game_over_resets_witness :
  state Boards.won <> PLAYING /\
  exists s',
    playerClick 3 3 Boards.cat3 0 0 Boards.won = Returned false s' /\
    reset Boards.cat3 (with_statusBar MsgGameOver Boards.won) = Returned tt s' /\
    state s' = PLAYING /\
    no_walls s' /\
    blocks s' =
      (fun column : list Block => Block_set_isWall false <$> column)
        <$> blocks (cat_reset Boards.cat3 (with_statusBar MsgGameOver Boards.won)) /\
    cat s' = cat (cat_reset Boards.cat3 (with_statusBar MsgGameOver Boards.won)) /\
    statusBar s' = MsgStart /\
    (blocks (cat_reset Boards.cat3 (with_statusBar MsgGameOver Boards.won)) =
       blocks Boards.won ->
     forall a b block,
       getBlock 3 3 a b Boards.won = Returned (Some block) Boards.won ->
       getBlock 3 3 a b s' = Returned (Some (Block_set_isWall false block)) s').
Proof.
  assert (N : state Boards.won <> PLAYING) by discriminate.
  split; [exact N | exact (playerClick_game_over_resets 3 3 Boards.cat3 0 0 Boards.won N)].
Defined.

(** Scenario B: a click on the wall at (1, 0). *)
Lemma playerClick_rejects_invalid_witness :
  exists s',
    playerClick 3 3 Boards.cat3 1 0 Boards.corner = Returned false s' /\
    blocks s' = blocks Boards.corner /\
    cat_i (cat s') = 0 /\
    cat_j (cat s') = 0 /\
    state s' = PLAYING.
Proof.
  apply (playerClick_rejects_invalid 3 3 Boards.cat3 1 0 Boards.corner).
  - reflexivity.
  - exact corner_blocks_created.
  - right. left. exists {| block_i := 1; block_j := 0; isWall := true |}.
    split; reflexivity.
Defined.

Lemma playerClick_caught_wins_witness :
  exists s',
    playerClick 3 3 Boards.cat3 1 2 Boards.nearly_caught = Returned false s' /\
    state s' = WIN /\
    cat_i (cat s') = 1 /\
    cat_j (cat s') = 1 /\
    blocks s' = blocks (wall_placed 1 2 Boards.nearly_caught).
Proof.
  apply (playerClick_caught_wins 3 3 Boards.cat3 1 2 Boards.nearly_caught
           {| block_i := 1; block_j := 2; isWall := false |}).
  - reflexivity.
  - reflexivity.
  - reflexivity.
  - cbn. lia.
  - vm_compute. reflexivity.
Defined.

Lemma playerClick_concession_wins_witness :
  exists result s',
    playerClick 3 3 Boards.cat3 0 1 Boards.corner = Returned result s' /\
    state s' = WIN /\
    state s' <> LOSE.
Proof.
  apply (playerClick_concession_wins 3 3 Boards.cat3 0 1 Boards.corner
           {| block_i := 0; block_j := 1; isWall := false |}).
  - reflexivity.
  - reflexivity.
  - reflexivity.
  - cbn. lia.
  - vm_compute. reflexivity.
  - vm_compute. reflexivity.
Defined.

Lemma playerClick_win_return_values_witness :
  (exists s',
     playerClick 3 3 Boards.cat3 0 1 Boards.corner = Returned true s' /\ state s' = WIN) /\
  (exists s',
     playerClick 3 3 Boards.cat3 1 2 Boards.nearly_caught = Returned false s' /\
     state s' = WIN).
Proof.
  split.
  - apply (playerClick_win_return_values 3 3 Boards.cat3 0 1 Boards.corner
             {| block_i := 0; block_j := 1; isWall := false |});
      [reflexivity | reflexivity | reflexivity | cbn; lia
      | vm_compute; reflexivity | vm_compute; reflexivity].
  - apply (playerClick_win_return_values 3 3 Boards.cat3 1 2 Boards.nearly_caught
             {| block_i := 1; block_j := 2; isWall := false |});
      [reflexivity | reflexivity | reflexivity | cbn; lia | vm_compute; reflexivity].
Defined.

Lemma cat_never_on_wall_witness :
  (forall i j, exists result s',
     playerClick 3 3 Boards.cat3 i j Boards.corner = Returned result s' /\
     blocks_created 3 3 (blocks s') /\
     cat_on_open_cell 3 3 s' /\
     open_cell 3 3 0 0 s') /\
  (exists s',
     reset Boards.cat3 Boards.corner = Returned tt s' /\
     blocks_created 3 3 (blocks s') /\
     cat_on_open_cell 3 3 s').
Proof.
  apply (cat_never_on_wall 3 3 Boards.cat3 1 1 Boards.corner).
  - exact (ref_cat_contract 3 3 1 1).
  - unfold inBounds. lia.
  - exact corner_blocks_created.
  - exists {| block_i := 0; block_j := 0; isWall := false |}. split; reflexivity.
Defined.

Lemma reset_idempotent_witness :
  exists s1 s2,
    reset Boards.cat3 Boards.won = Returned tt s1 /\
    reset Boards.cat3 s1 = Returned tt s2 /\
    same_model s2 s1 /\
    statusBar s2 = statusBar s1.
Proof.
  exact (reset_idempotent 3 3 Boards.cat3 1 1 Boards.won (ref_cat_contract 3 3 1 1)).
Defined.

(** ** More on the neighbourhood *)

(** X1: the six neighbours of a cell with safe coordinates are pairwise
    different cells. *)
Theorem getNeighbours_NoDup (i j : Z) :
  safe_cell i j -> NoDup (getNeighbours i j).
Proof.
  intros _. rewrite getNeighbours_by_parity.
  destruct (Z.even j);
    repeat (apply NoDup_cons_2;
            [rewrite ?elem_of_cons, elem_of_nil;
             intros D; decompose [or] D; try contradiction;
             match goal with H : (_, _) = (_, _) |- _ => inversion H; lia end |]);
    apply NoDup_nil_2.
Qed.

(** X2: directions k and k+3 (mod 6) are opposite: the neighbour in
    direction k of a cell has that cell as its neighbour in direction
    k+3 (left/right, top-left/bottom-right, top-right/bottom-left), the
    cell and its neighbour having safe coordinates. *)
Theorem getNeighbours_opposite (i j : Z) (k : nat) (p : Z * Z) :
  safe_cell i j ->
  safe_cell (fst p) (snd p) ->
  getNeighbours i j !! k = Some p ->
  getNeighbours (fst p) (snd p) !! ((k + 3) mod 6)%nat = Some (i, j).
Proof.
  intros _ _. rewrite getNeighbours_by_parity.
  parity_cases j;
    destruct k as [| [| [| [| [| [| k]]]]]]; cbn; try discriminate;
    intros [= <-]; cbn [fst snd];
    rewrite getNeighbours_by_parity;
    match goal with
    | |- context [Z.even ?x] => parity_cases x; try (exfalso; lia)
    end;
    cbn; f_equal; f_equal; lia.
Qed.

(** X3: the neighbourhood is the same pattern everywhere on the grid:
    between two cells with safe coordinates that lie a columns and an
    even number 2b of rows apart, the six neighbours of the second are
    those of the first, in order, each moved by (a, 2b). *)
Theorem getNeighbours_translate (i j a b : Z) :
  safe_cell i j ->
  safe_cell (i + a) (j + 2 * b) ->
  getNeighbours (i + a) (j + 2 * b) =
    (fun p : Z * Z => (fst p + a, snd p + 2 * b)) <$> getNeighbours i j.
Proof.
  intros _ _. rewrite !getNeighbours_by_parity.
  replace (Z.even (j + 2 * b)) with (Z.even j)
    by (rewrite Z.even_add, Z.even_mul; cbn; destruct (Z.even j); reflexivity).
  destruct (Z.even j); cbn; repeat (f_equal; try lia).
Qed.

(** X4: an in-bounds cell has all six neighbours in bounds exactly when
    it is not on the edge of the grid (0 < i < w-1 and 0 < j < h-1). *)
Theorem getNeighbours_inBounds_iff_interior (w h i j : Z) :
  inBounds w h i j ->
  Forall (fun p : Z * Z => inBounds w h (fst p) (snd p)) (getNeighbours i j) <->
  0 < i < w - 1 /\ 0 < j < h - 1.
Proof.
  intros [Hi Hj]. rewrite getNeighbours_by_parity.
  destruct (Z.even j); rewrite !Forall_cons, Forall_nil; unfold inBounds; cbn; lia.
Qed.

Lemma getNeighbours_inBounds_iff_interior_witness :
  inBounds 3 3 1 1 /\
  (Forall (fun p : Z * Z => inBounds 3 3 (fst p) (snd p)) (getNeighbours 1 1) <->
   0 < 1 < 3 - 1 /\ 0 < 1 < 3 - 1).
Proof.
  assert (B : inBounds 3 3 1 1) by (unfold inBounds; lia).
  split; [exact B | exact (getNeighbours_inBounds_iff_interior 3 3 1 1 B)].
Defined.

Lemma safe_cell_small (i j : Z) :
  -3 <= i <= 6 -> -3 <= j <= 6 -> safe_cell i j.
Proof. unfold safe_cell, MAX_SAFE_INTEGER. change (2 ^ 53) with 9007199254740992. lia. Defined.

Lemma getNeighbours_NoDup_witness : NoDup (getNeighbours 1 1).
Proof. apply (getNeighbours_NoDup 1 1). apply safe_cell_small; lia. Defined.

Lemma getNeighbours_opposite_witness :
  getNeighbours 1 0 !! ((1 + 3) mod 6)%nat = Some (1, 1).
Proof.
  apply (getNeighbours_opposite 1 1 1 (1, 0)).
  - apply safe_cell_small; lia.
  - apply safe_cell_small; cbn; lia.
  - reflexivity.
Defined.

Lemma getNeighbours_translate_witness :
  getNeighbours (1 + 1) (1 + 2 * 2) =
    (fun p : Z * Z => (fst p + 1, snd p + 2 * 2)) <$> getNeighbours 1 1.
Proof.
  apply (getNeighbours_translate 1 1 1 2); apply safe_cell_small; lia.
Defined.

(** ** More on the scene: the grid under clicks *)

Section SceneGrid.
Context (w h : Z) (catM : CatMethods).

Local Abbreviation getBlock := (MainScene.getBlock w h).
Local Abbreviation inBounds := (MainScene.inBounds w h).
Local Abbreviation createBlocks := (MainScene.createBlocks w h).
Local Abbreviation blocks_created := (MainScene.blocks_created w h).
Local Abbreviation reset := (MainScene.reset catM).
Local Abbreviation playerClick := (MainScene.playerClick w h catM).

Lemma getBlock_created_returns (i j : Z) (s : SceneData) :
  blocks_created (blocks s) -> exists ob, getBlock i j s = Returned ob s.
Proof.
  intros C. destruct (getBlock_cases w h i j s) as [G | G]; [| exact G].
  destruct (decide (inBounds i j)) as [B | B].
  - destruct (blocks_created_lookup w h _ i j C B) as (column & block & L1 & _).
    rewrite (getBlock_in_bounds w h _ _ _ B), L1 in G. discriminate.
  - rewrite (getBlock_out_of_bounds w h _ _ _ B) in G. discriminate.
Qed.

Lemma getBlock_wall_placed_same (i j : Z) (s : SceneData) (block : Block) :
  getBlock i j s = Returned (Some block) s ->
  getBlock i j (wall_placed i j s) =
    Returned (Some (Block_set_isWall true block)) (wall_placed i j s).
Proof.
  intros G. destruct (getBlock_Some w h _ _ _ _ _ G) as (B & column & L1 & L2).
  rewrite (getBlock_in_bounds w h _ _ _ B), blocks_wall_placed.
  rewrite list_lookup_alter_eq, L1. cbn.
  rewrite list_lookup_alter_eq, L2. reflexivity.
Qed.

Lemma getBlock_wall_placed_other (i j a b : Z) (s : SceneData) (ob : option Block) :
  inBounds i j -> ~ (a = i /\ b = j) ->
  getBlock a b s = Returned ob s ->
  getBlock a b (wall_placed i j s) = Returned ob (wall_placed i j s).
Proof.
  intros [Hi Hj] N G. destruct (decide (inBounds a b)) as [B | B].
  - pose proof B as [Ha Hb].
    rewrite (getBlock_in_bounds w h _ _ _ B) in G.
    rewrite (getBlock_in_bounds w h _ _ _ B), blocks_wall_placed.
    destruct (blocks s !! Z.to_nat a) as [column |] eqn:L1; [| discriminate].
    injection G as <-.
    destruct (decide (a = i)) as [-> | Na].
    + rewrite list_lookup_alter_eq, L1. cbn.
      rewrite list_lookup_alter_ne by lia. reflexivity.
    + rewrite list_lookup_alter_ne by lia. rewrite L1. reflexivity.
  - rewrite (getBlock_out_of_bounds w h _ _ _ B) in G.
    rewrite (getBlock_out_of_bounds w h _ _ _ B). congruence.
Qed.

(** The grid a click while playing leaves behind, when the cat's step
    does not touch the grid. *)
Lemma playerClick_blocks (i j : Z) (s s' : SceneData) (r : bool) :
  state s = PLAYING ->
  (forall s0, blocks (snd (step catM s0)) = blocks s0) ->
  playerClick i j s = Returned r s' ->
  (r = false /\ blocks s' = blocks s) \/
  (blocks s' = blocks (wall_placed i j s) /\
   exists block,
     getBlock i j s = Returned (Some block) s /\ isWall block = false /\
     ~ (cat_i (cat s) = i /\ cat_j (cat s) = j)).
Proof.
  intros P Sk R. rewrite (playerClick_playing w h catM _ _ _ P) in R.
  assert (Eb : forall t, blocks (with_statusBar t (anims_stopped s)) = blocks s)
    by (intros t; unfold anims_stopped; destruct (anims_isPlaying (cat s)); reflexivity).
  destruct (getBlock_cases w h i j s) as [G | [ob G]].
  { assert (G' : getBlock i j (anims_stopped s) = Thrown (anims_stopped s)).
    { destruct (getBlock_cases w h i j (anims_stopped s)) as [T | [ob T]]; [exact T |].
      assert (Es : blocks (anims_stopped s) = blocks s)
        by (unfold anims_stopped; destruct (anims_isPlaying (cat s)); reflexivity).
      rewrite (getBlock_same_blocks w h _ _ _ _ _ Es T) in G. discriminate. }
    rewrite G' in R. discriminate. }
  rewrite (getBlock_anims_stopped w h _ _ _ _ G) in R.
  destruct ob as [block |];
    [| injection R as <- <-; left; split; [reflexivity | apply Eb]].
  destruct (isWall block) eqn:W;
    [injection R as <- <-; left; split; [reflexivity | apply Eb] |].
  destruct ((cat_i (cat s) =? i) && (cat_j (cat s) =? j)) eqn:E;
    [injection R as <- <-; left; split; [reflexivity | apply Eb] |].
  right. split.
  - destruct (isCaught catM (wall_placed i j s)); [injection R as <- <-; reflexivity |].
    specialize (Sk (before_step i j s)).
    destruct (step catM (before_step i j s)) as [[|] s2]; injection R as <- <-; exact Sk.
  - exists block. split; [exact G |]. split; [exact W |].
    intros [<- <-]. rewrite !Z.eqb_refl in E. discriminate.
Qed.

(** An accepted click: what it returns and the grid it leaves. *)
Lemma playerClick_accepted (i j : Z) (s : SceneData) (block : Block) :
  state s = PLAYING ->
  getBlock i j s = Returned (Some block) s ->
  isWall block = false ->
  ~ (cat_i (cat s) = i /\ cat_j (cat s) = j) ->
  (forall s0, blocks (snd (step catM s0)) = blocks s0) ->
  exists s',
    playerClick i j s = Returned (negb (isCaught catM (wall_placed i j s))) s' /\
    blocks s' = blocks (wall_placed i j s).
Proof.
  intros P G W N Sk. rewrite (playerClick_playing w h catM _ _ _ P).
  rewrite (getBlock_anims_stopped w h _ _ _ _ G), W.
  destruct ((cat_i (cat s) =? i) && (cat_j (cat s) =? j)) eqn:E.
  { apply andb_true_iff in E. destruct N. lia. }
  destruct (isCaught catM (wall_placed i j s)); [eexists; split; reflexivity |].
  specialize (Sk (before_step i j s)).
  destruct (step catM (before_step i j s)) as [[|] s2];
    eexists; (split; [reflexivity | exact Sk]).
Qed.

(** X5: on a grid made by createBlocks, blocksData is a w x h matrix
    and its entry [i][j] is the isWall of the block getBlock(i, j)
    returns. *)
Theorem blocksData_matches_getBlock (s : SceneData) :
  blocks_created (blocks s) ->
  length (blocksData s) = Z.to_nat w /\
  Forall (fun column => length column = Z.to_nat h) (blocksData s) /\
  forall i j, inBounds i j ->
    exists block column,
      getBlock i j s = Returned (Some block) s /\
      blocksData s !! Z.to_nat i = Some column /\
      column !! Z.to_nat j = Some (isWall block).
Proof.
  intros C. unfold blocksData. split; [| split].
  - rewrite length_fmap. apply (f_equal length) in C.
    rewrite length_fmap in C. rewrite C. unfold MainScene.createBlocks.
    rewrite length_fmap, length_seqZ. reflexivity.
  - apply Forall_fmap, Forall_lookup. intros k column L. cbn.
    rewrite length_fmap.
    apply (f_equal (fun l => l !! k)) in C. rewrite list_lookup_fmap, L in C. cbn in C.
    unfold MainScene.createBlocks in C. rewrite list_lookup_fmap in C.
    destruct (seqZ 0 w !! k) as [i |]; [| discriminate]. cbn in C.
    injection C as C. apply (f_equal length) in C.
    rewrite !length_fmap, length_seqZ in C. exact C.
  - intros i j B.
    destruct (blocks_created_lookup w h _ i j C B) as (column & block & L1 & L2 & _).
    exists block, (isWall <$> column).
    rewrite (getBlock_in_bounds w h _ _ _ B), L1, L2.
    rewrite !list_lookup_fmap, L1. cbn. rewrite L2. auto.
Qed.

(** X7: an accepted click (while PLAYING, on an existing block that is
    not a wall and not the cat's cell) turns exactly the clicked cell
    into a wall: afterwards getBlock(i, j) is that block with isWall set,
    and getBlock on every other cell returns what it returned before.
    The cat's step is assumed not to touch the grid. *)
Theorem playerClick_walls_one_cell (i j : Z) (s : SceneData) (block : Block) :
  state s = PLAYING ->
  getBlock i j s = Returned (Some block) s ->
  isWall block = false ->
  ~ (cat_i (cat s) = i /\ cat_j (cat s) = j) ->
  (forall s0, blocks (snd (step catM s0)) = blocks s0) ->
  exists r s',
    playerClick i j s = Returned r s' /\
    getBlock i j s' = Returned (Some (Block_set_isWall true block)) s' /\
    forall a b ob, ~ (a = i /\ b = j) ->
      getBlock a b s = Returned ob s -> getBlock a b s' = Returned ob s'.
Proof.
  intros P G W N Sk.
  destruct (playerClick_accepted i j s block P G W N Sk) as (s' & R & Eb).
  eexists _, s'. split; [exact R |].
  pose proof (proj1 (getBlock_Some w h _ _ _ _ _ G)) as B.
  split.
  - apply (getBlock_same_blocks w h _ _ (wall_placed i j s)); [symmetry; exact Eb |].
    apply getBlock_wall_placed_same, G.
  - intros a b ob Nab Gab.
    apply (getBlock_same_blocks w h _ _ (wall_placed i j s)); [symmetry; exact Eb |].
    apply getBlock_wall_placed_other; assumption.
Qed.

(** A click while playing, by the block [getBlock] finds. *)
Lemma playerClick_playing_at (i j : Z) (s : SceneData) (ob : option Block) :
  state s = PLAYING ->
  getBlock i j s = Returned ob s ->
  playerClick i j s =
    match ob with
    | None => Returned false (with_statusBar MsgNoSuchBlock (anims_stopped s))
    | Some block =>
        if isWall block then
          Returned false (with_statusBar MsgAlreadyWall (anims_stopped s))
        else if (cat_i (cat s) =? i) && (cat_j (cat s) =? j) then
          Returned false (with_statusBar MsgCatIsHere (anims_stopped s))
        else if isCaught catM (wall_placed i j s) then
          Returned false
            (with_state WIN
               (with_statusBar MsgNoWayOut
                  (with_statusBar MsgNoWayOut (wall_placed i j s))))
        else
          let '(result, s') := step catM (before_step i j s) in
          if result then Returned true s'
          else
            Returned true
              (with_state WIN
                 (with_statusBar MsgNoWayOut (with_statusBar MsgCatConcedes s')))
    end.
Proof.
  intros P G. rewrite (playerClick_playing w h catM _ _ _ P).
  rewrite (getBlock_anims_stopped w h _ _ _ _ G). destruct ob; reflexivity.
Qed.

Lemma playerClick_playing_thrown (i j : Z) (s : SceneData) :
  state s = PLAYING ->
  getBlock i j s = Thrown s ->
  playerClick i j s = Thrown (anims_stopped s).
Proof.
  intros P G. rewrite (playerClick_playing w h catM _ _ _ P).
  destruct (getBlock_cases w h i j (anims_stopped s)) as [T | [ob T]];
    [rewrite T; reflexivity |].
  assert (Es : blocks (anims_stopped s) = blocks s)
    by (unfold anims_stopped; destruct (anims_isPlaying (cat s)); reflexivity).
  rewrite (getBlock_same_blocks w h _ _ _ _ _ Es T) in G. discriminate.
Qed.

Lemma state_anims_stopped (t : Message) (s : SceneData) :
  state (with_statusBar t (anims_stopped s)) = state s.
Proof. unfold anims_stopped. destruct (anims_isPlaying (cat s)); reflexivity. Qed.

Lemma not_playing (s : SceneData) :
  state s <> PLAYING \/ state s = PLAYING.
Proof. destruct (state s); auto; left; discriminate. Qed.

Lemma getBlock_thrown_iff (i j : Z) (s : SceneData) :
  getBlock i j s = Thrown s <-> inBounds i j /\ blocks s !! Z.to_nat i = None.
Proof.
  destruct (decide (inBounds i j)) as [B | B].
  - rewrite (getBlock_in_bounds w h _ _ _ B).
    destruct (blocks s !! Z.to_nat i); split;
      [discriminate | intros [_ ?]; discriminate | auto | reflexivity].
  - rewrite (getBlock_out_of_bounds w h _ _ _ B).
    split; [discriminate | intros [? _]; contradiction].
Qed.

(** X6: the scene's own part in a click raising, for integer
    coordinates and cat methods that return: playerClick raises exactly
    when the state is PLAYING, (i, j) passes the bounds test of getBlock
    and this.blocks has no column i to index; the scene data are then as
    before but for the stopped animation.  On a grid made by createBlocks
    this never happens: the click completes with a boolean. *)
Theorem playerClick_raises_iff (i j : Z) (s : SceneData) :
  ((exists s', playerClick i j s = Thrown s') <->
   state s = PLAYING /\ inBounds i j /\ blocks s !! Z.to_nat i = None) /\
  (forall s', playerClick i j s = Thrown s' -> s' = anims_stopped s) /\
  (blocks_created (blocks s) -> exists r s', playerClick i j s = Returned r s').
Proof.
  assert (Ret : (exists ob, getBlock i j s = Returned ob s) ->
                exists r s', playerClick i j s = Returned r s').
  { intros [ob G]. destruct (not_playing s) as [N | P].
    - rewrite (playerClick_not_playing w h catM _ _ _ N), reset_run. eauto.
    - rewrite (playerClick_playing_at _ _ _ _ P G).
      destruct ob as [block |]; [| eauto].
      destruct (isWall block); [eauto |].
      destruct ((cat_i (cat s) =? i) && (cat_j (cat s) =? j)); [eauto |].
      destruct (isCaught catM (wall_placed i j s)); [eauto |].
      destruct (step catM (before_step i j s)) as [[|] s2]; eauto. }
  assert (Thr : forall s', playerClick i j s = Thrown s' ->
                  state s = PLAYING /\ getBlock i j s = Thrown s /\ s' = anims_stopped s).
  { intros s' T. destruct (getBlock_cases w h i j s) as [G | G].
    - destruct (not_playing s) as [N | P].
      + rewrite (playerClick_not_playing w h catM _ _ _ N), reset_run in T. discriminate.
      + rewrite (playerClick_playing_thrown _ _ _ P G) in T. injection T as <-. auto.
    - destruct (Ret G) as (r & s'' & R). rewrite R in T. discriminate. }
  split; [split |].
  - intros [s' T]. destruct (Thr s' T) as (P & G & _).
    split; [exact P |]. apply getBlock_thrown_iff, G.
  - intros (P & B & L). exists (anims_stopped s).
    apply playerClick_playing_thrown; [exact P |]. apply getBlock_thrown_iff. auto.
  - split.
    + intros s' T. exact (proj2 (proj2 (Thr s' T))).
    + intros C. apply Ret. apply getBlock_created_returns, C.
Qed.

(** X8: while PLAYING a click never removes a wall: a cell that is a
    wall before the click is the same wall after it.  The cat's step is
    assumed not to touch the grid. *)
Theorem playerClick_keeps_walls (i j : Z) (s s' : SceneData) (r : bool) :
  state s = PLAYING ->
  (forall s0, blocks (snd (step catM s0)) = blocks s0) ->
  playerClick i j s = Returned r s' ->
  forall a b block,
    getBlock a b s = Returned (Some block) s ->
    isWall block = true ->
    getBlock a b s' = Returned (Some block) s'.
Proof.
  intros P Sk R a b block G W.
  destruct (playerClick_blocks i j s s' r P Sk R) as [[_ Eb] | [Eb (block0 & G0 & W0 & _)]].
  - apply (getBlock_same_blocks w h _ _ s); [symmetry; exact Eb | exact G].
  - apply (getBlock_same_blocks w h _ _ (wall_placed i j s)); [symmetry; exact Eb |].
    apply getBlock_wall_placed_other; [exact (proj1 (getBlock_Some w h _ _ _ _ _ G0)) | | exact G].
    intros [-> ->]. rewrite G in G0. injection G0 as <-. congruence.
Qed.

(** X9: playerClick returns true exactly when the game was PLAYING, the
    clicked block exists, is not a wall and is not the cat's cell, and
    the cat is not caught once the wall is placed. *)
Theorem playerClick_true_iff (i j : Z) (s s' : SceneData) (r : bool) :
  playerClick i j s = Returned r s' ->
  r = true <->
  state s = PLAYING /\
  exists block,
    getBlock i j s = Returned (Some block) s /\
    isWall block = false /\
    ~ (cat_i (cat s) = i /\ cat_j (cat s) = j) /\
    isCaught catM (wall_placed i j s) = false.
Proof.
  intros R. destruct (not_playing s) as [N | P].
  - rewrite (playerClick_not_playing w h catM _ _ _ N), reset_run in R.
    injection R as <- <-. split; [discriminate | intros [P _]; contradiction].
  - destruct (getBlock_cases w h i j s) as [G | [ob G]].
    { rewrite (playerClick_playing_thrown _ _ _ P G) in R. discriminate. }
    rewrite (playerClick_playing_at _ _ _ _ P G) in R.
    destruct ob as [block |].
    2: { injection R as <- <-. split; [discriminate |].
         intros (_ & block & G' & _). rewrite G in G'. discriminate. }
    destruct (isWall block) eqn:W.
    { injection R as <- <-. split; [discriminate |].
      intros (_ & block' & G' & W' & _). rewrite G in G'. injection G' as <-. congruence. }
    destruct ((cat_i (cat s) =? i) && (cat_j (cat s) =? j)) eqn:E.
    { injection R as <- <-. split; [discriminate |].
      intros (_ & _ & _ & _ & N & _). apply andb_true_iff in E. destruct N. lia. }
    assert (N : ~ (cat_i (cat s) = i /\ cat_j (cat s) = j))
      by (intros [<- <-]; rewrite !Z.eqb_refl in E; discriminate).
    destruct (isCaught catM (wall_placed i j s)) eqn:K.
    { injection R as <- <-. split; [discriminate |].
      intros (_ & _ & _ & _ & _ & K'). discriminate. }
    assert (r = true)
      by (destruct (step catM (before_step i j s)) as [[|] s2]; injection R as <- _;
          reflexivity).
    split; [| auto]. intros _. split; [exact P |]. exists block. auto.
Qed.

(** X10: playerClick itself never sets the state to LOSE: if the state
    is LOSE when it returns, the game was PLAYING, the click was accepted
    (the clicked block exists, was not a wall, is not the cat's cell, and
    the cat was not caught once the wall was placed), it returned true,
    and the scene data are exactly those the cat's step left (LOSE was
    set during the step, by the "escaped" handler). *)
Theorem playerClick_lose_only_from_step (i j : Z) (s s' : SceneData) (r : bool) :
  playerClick i j s = Returned r s' ->
  state s' = LOSE ->
  state s = PLAYING /\
  (exists block,
     getBlock i j s = Returned (Some block) s /\
     isWall block = false /\
     ~ (cat_i (cat s) = i /\ cat_j (cat s) = j) /\
     isCaught catM (wall_placed i j s) = false) /\
  r = true /\
  step catM (before_step i j s) = (true, s').
Proof.
  intros R L. destruct (not_playing s) as [N | P].
  - rewrite (playerClick_not_playing w h catM _ _ _ N), reset_run in R.
    injection R as <- <-. discriminate.
  - destruct (getBlock_cases w h i j s) as [G | [ob G]].
    { rewrite (playerClick_playing_thrown _ _ _ P G) in R. discriminate. }
    rewrite (playerClick_playing_at _ _ _ _ P G) in R.
    destruct ob as [block |];
      [| injection R as <- <-; rewrite state_anims_stopped in L; congruence].
    destruct (isWall block) eqn:W;
      [injection R as <- <-; rewrite state_anims_stopped in L; congruence |].
    destruct ((cat_i (cat s) =? i) && (cat_j (cat s) =? j)) eqn:E;
      [injection R as <- <-; rewrite state_anims_stopped in L; congruence |].
    assert (N : ~ (cat_i (cat s) = i /\ cat_j (cat s) = j))
      by (intros [<- <-]; rewrite !Z.eqb_refl in E; discriminate).
    destruct (isCaught catM (wall_placed i j s)) eqn:K;
      [injection R as <- <-; discriminate |].
    split; [exact P |]. split; [exists block; auto |].
    destruct (step catM (before_step i j s)) as [[|] s2]; injection R as <- <-;
      [auto | discriminate].
Qed.

(** X11: when the cat concedes (an accepted click, the cat not caught,
    step() false) the status bar does not end with the concession text:
    the state setter runs after it and leaves its own WIN text. *)
Theorem playerClick_concession_status (i j : Z) (s : SceneData) (block : Block) :
  state s = PLAYING ->
  getBlock i j s = Returned (Some block) s ->
  isWall block = false ->
  ~ (cat_i (cat s) = i /\ cat_j (cat s) = j) ->
  isCaught catM (wall_placed i j s) = false ->
  fst (step catM (before_step i j s)) = false ->
  exists s',
    playerClick i j s = Returned true s' /\
    statusBar s' = MsgNoWayOut /\
    statusBar s' <> MsgCatConcedes.
Proof.
  intros P G W N K F. rewrite (playerClick_playing_at _ _ _ _ P G), W.
  destruct ((cat_i (cat s) =? i) && (cat_j (cat s) =? j)) eqn:E.
  { apply andb_true_iff in E. destruct N. lia. }
  rewrite K. destruct (step catM (before_step i j s)) as [result s2].
  cbn in F. subst result. eexists. split; [reflexivity |]. cbn.
  split; [reflexivity | discriminate].
Qed.

(** X12: a click on a finished game leaves the start text of reset in
    the status bar, not the "game over" text it sets first. *)
Theorem playerClick_game_over_status (i j : Z) (s : SceneData) :
  state s <> PLAYING ->
  exists s',
    playerClick i j s = Returned false s' /\
    statusBar s' = MsgStart /\
    statusBar s' <> MsgGameOver.
Proof.
  intros N. rewrite (playerClick_not_playing w h catM _ _ _ N), reset_run.
  eexists. split; [reflexivity |]. cbn. split; [reflexivity | discriminate].
Qed.

(** X13: a cell can be walled only once: after an accepted click that
    leaves the game PLAYING, a second click on the same cell is rejected
    as "already a wall" and returns false.  The cat's step is assumed not
    to touch the grid. *)
Theorem playerClick_twice_rejected (i j : Z) (s s' : SceneData) (block : Block) (r : bool) :
  state s = PLAYING ->
  getBlock i j s = Returned (Some block) s ->
  isWall block = false ->
  ~ (cat_i (cat s) = i /\ cat_j (cat s) = j) ->
  (forall s0, blocks (snd (step catM s0)) = blocks s0) ->
  playerClick i j s = Returned r s' ->
  state s' = PLAYING ->
  playerClick i j s' = Returned false (with_statusBar MsgAlreadyWall (anims_stopped s')).
Proof.
  intros P G W N Sk R P'.
  destruct (playerClick_accepted i j s block P G W N Sk) as (s'' & R' & Eb).
  rewrite R in R'. injection R' as _ <-.
  assert (G' : getBlock i j s' = Returned (Some (Block_set_isWall true block)) s').
  { apply (getBlock_same_blocks w h _ _ (wall_placed i j s)); [symmetry; exact Eb |].
    apply getBlock_wall_placed_same, G. }
  rewrite (playerClick_playing_at _ _ _ _ P' G'). reflexivity.
Qed.
End SceneGrid.

(** ** More on the scene: creation, reset and the cat's events *)

Section SceneLifecycle.
Context (w h : Z) (catM : CatMethods).

Local Abbreviation getBlock := (MainScene.getBlock w h).
Local Abbreviation inBounds := (MainScene.inBounds w h).
Local Abbreviation createBlocks := (MainScene.createBlocks w h).
Local Abbreviation blocks_created := (MainScene.blocks_created w h).
Local Abbreviation reset := (MainScene.reset catM).
Local Abbreviation create := (MainScene.create w h catM).
Local Abbreviation playerClick := (MainScene.playerClick w h catM).
Local Abbreviation open_cell := (MainScene.open_cell w h).
Local Abbreviation cat_on_open_cell := (MainScene.cat_on_open_cell w h).
Local Abbreviation CatContract := (MainScene.CatContract w h catM).
Local Abbreviation handle_all := (MainScene.handle_all w h catM).

Lemma fmap_const_replicate {A B : Type} (x : B) (l : list A) :
  (fun _ => x) <$> l = replicate (length l) x.
Proof. induction l as [| a l IH]; cbn; [reflexivity | f_equal; exact IH]. Qed.

Lemma createBlocks_blocksData :
  (fun column : list Block => isWall <$> column) <$> createBlocks =
  replicate (Z.to_nat w) (replicate (Z.to_nat h) false).
Proof.
  unfold MainScene.createBlocks. rewrite <- list_fmap_compose.
  rewrite <- (length_seqZ 0 w), <- fmap_const_replicate.
  apply list_fmap_ext. intros _ i _. cbn.
  rewrite <- list_fmap_compose.
  rewrite <- (length_seqZ 0 h), <- fmap_const_replicate.
  apply list_fmap_ext. intros _ j _. reflexivity.
Qed.

Lemma create_run (new_Cat : Cat) (new_StatusBar : Message) (s : SceneData) :
  create new_Cat new_StatusBar s =
    reset (with_statusBar new_StatusBar (with_cat new_Cat (with_blocks createBlocks s))).
Proof. reflexivity. Qed.

(** X14: after reset the matrix the cat's solver reads (blocksData) is
    w columns of h entries, all false.  The grid is one made by
    createBlocks and the cat's own reset is assumed not to touch it. *)
Theorem reset_blocksData (s : SceneData) :
  blocks_created (blocks s) ->
  (forall s0, blocks (cat_reset catM s0) = blocks s0) ->
  exists s',
    reset s = Returned tt s' /\
    blocksData s' = replicate (Z.to_nat w) (replicate (Z.to_nat h) false).
Proof.
  intros C Rk. rewrite reset_run. eexists. split; [reflexivity |].
  unfold blocksData. cbn. rewrite Rk.
  unfold MainScene.blocks_created in C. rewrite C.
  apply createBlocks_blocksData.
Qed.

(** X15: create() leaves a fresh game whatever the scene data were: the
    grid is the one createBlocks builds (w columns of h blocks, no
    wall), the cat is at its start position, the state is PLAYING and the
    status bar shows the start text.  The cat's reset is the one of the
    specification ([CatContract]). *)
Theorem create_fresh_game (start_i start_j : Z) (new_Cat : Cat)
    (new_StatusBar : Message) (s : SceneData) :
  CatContract start_i start_j ->
  exists s',
    create new_Cat new_StatusBar s = Returned tt s' /\
    blocks s' = createBlocks /\
    cat_i (cat s') = start_i /\
    cat_j (cat s') = start_j /\
    state s' = PLAYING /\
    statusBar s' = MsgStart.
Proof.
  intros K. rewrite create_run, reset_run. eexists. split; [reflexivity |]. cbn.
  rewrite (reset_keeps_blocks _ _ _ _ _ K). cbn.
  match goal with
  | |- context [cat_reset catM ?x] =>
      destruct (reset_position _ _ _ _ _ K x) as [-> ->]
  end.
  split; [apply createBlocks_created | auto].
Qed.

(** X16: from create() on, whatever clicks, reset-button presses and
    cat events follow, every handler completes without raising, the grid
    stays the one createBlocks made and the cat is on a cell that is not
    a wall.  The cat's methods are those of the specification
    ([CatContract]) and the start position is a cell of the grid. *)
Theorem create_then_events (start_i start_j : Z) (new_Cat : Cat)
    (new_StatusBar : Message) (events : list Event) (s : SceneData) :
  CatContract start_i start_j ->
  inBounds start_i start_j ->
  exists s',
    bind (create new_Cat new_StatusBar) (fun _ => handle_all events) s = Returned tt s' /\
    blocks_created (blocks s') /\
    cat_on_open_cell s'.
Proof.
  intros K B. unfold bind. rewrite create_run.
  destruct (reset_opens_start w h catM start_i start_j
              (with_statusBar new_StatusBar (with_cat new_Cat (with_blocks createBlocks s)))
              K B (createBlocks_created w h))
    as (s1 & R & C1 & O1 & _).
  rewrite R.
  exact (cat_on_open_cell_always w h catM start_i start_j events K B s1 C1 O1).
Qed.

(** A click on a finished game whose grid is that of [s]. *)
Lemma click_on_finished (i j : Z) (s1 s : SceneData) :
  state s1 <> PLAYING ->
  blocks s1 = blocks s ->
  (forall s0, blocks (cat_reset catM s0) = blocks s0) ->
  exists s',
    playerClick i j s1 = Returned false s' /\
    state s' = PLAYING /\ statusBar s' = MsgStart /\ no_walls s' /\
    blocks s' =
      (fun column : list Block => Block_set_isWall false <$> column) <$> blocks s /\
    forall a b block,
      getBlock a b s = Returned (Some block) s ->
      getBlock a b s' = Returned (Some (Block_set_isWall false block)) s'.
Proof.
  intros N E Rk. rewrite (playerClick_not_playing w h catM _ _ _ N), reset_run.
  eexists. split; [reflexivity |]. do 2 (split; [reflexivity |]).
  split; [apply clear_no_walls |].
  assert (Eb : blocks (cat_reset catM (with_statusBar MsgGameOver s1)) = blocks s)
    by (rewrite Rk; exact E).
  split; [cbn; rewrite Eb; reflexivity |].
  intros a b block G. apply (getBlock_cleared w h a b s); [| exact G].
  cbn. rewrite Eb. reflexivity.
Qed.

(** X17: once the cat's "escaped" (or "win") event has set the state to
    LOSE (or WIN), leaving grid and cat as they are, the next click
    places no wall: it returns false and restarts the game - the state is
    PLAYING, the status bar shows the start text, and the grid is the one
    before the event, block for block, with every isWall cleared, so that
    getBlock finds every cell it found before, now open.  The cat's own
    reset is assumed not to touch the grid. *)
Theorem cat_event_then_click (i j : Z) (s : SceneData) :
  (forall s0, blocks (cat_reset catM s0) = blocks s0) ->
  (exists s1 s',
     on_escaped s = Returned tt s1 /\
     state s1 = LOSE /\ statusBar s1 = MsgEscaped /\
     blocks s1 = blocks s /\ cat s1 = cat s /\
     playerClick i j s1 = Returned false s' /\
     state s' = PLAYING /\ statusBar s' = MsgStart /\ no_walls s' /\
     blocks s' =
       (fun column : list Block => Block_set_isWall false <$> column) <$> blocks s /\
     forall a b block,
       getBlock a b s = Returned (Some block) s ->
       getBlock a b s' = Returned (Some (Block_set_isWall false block)) s') /\
  (exists s1 s',
     on_win s = Returned tt s1 /\
     state s1 = WIN /\ statusBar s1 = MsgNoWayOut /\
     blocks s1 = blocks s /\ cat s1 = cat s /\
     playerClick i j s1 = Returned false s' /\
     state s' = PLAYING /\ statusBar s' = MsgStart /\ no_walls s' /\
     blocks s' =
       (fun column : list Block => Block_set_isWall false <$> column) <$> blocks s /\
     forall a b block,
       getBlock a b s = Returned (Some block) s ->
       getBlock a b s' = Returned (Some (Block_set_isWall false block)) s').
Proof.
  intros Rk. split.
  - destruct (click_on_finished i j (with_state LOSE (with_statusBar MsgEscaped s)) s)
      as (s' & R & P & T & W & Eb & G); [discriminate | reflexivity | exact Rk |].
    eexists _, s'. split; [reflexivity |]. do 4 (split; [reflexivity |]). auto 10.
  - destruct (click_on_finished i j (with_state WIN (with_statusBar MsgNoWayOut s)) s)
      as (s' & R & P & T & W & Eb & G); [discriminate | reflexivity | exact Rk |].
    eexists _, s'. split; [reflexivity |]. do 4 (split; [reflexivity |]). auto 10.
Qed.

(** X18: right after reset every cell of the grid except the cat's start
    cell can be walled: a click on it is accepted, returns true unless
    the wall encloses the cat, and leaves that cell a wall.  The cat's
    methods are those of the specification ([CatContract]), on a grid
    made by createBlocks. *)
Theorem reset_then_click (start_i start_j i j : Z) (s : SceneData) :
  CatContract start_i start_j ->
  inBounds start_i start_j ->
  blocks_created (blocks s) ->
  inBounds i j ->
  ~ (i = start_i /\ j = start_j) ->
  exists s1 s' block,
    reset s = Returned tt s1 /\
    playerClick i j s1 = Returned (negb (isCaught catM (wall_placed i j s1))) s' /\
    getBlock i j s' = Returned (Some block) s' /\
    isWall block = true.
Proof.
  intros K B C Bij N.
  destruct (reset_opens_start w h catM start_i start_j s K B C) as (s1 & R & C1 & _ & O).
  destruct (O i j Bij) as (block & G & W).
  assert (P : state s1 = PLAYING)
    by (rewrite reset_run in R; injection R as <-; reflexivity).
  assert (Pc : cat_i (cat s1) = start_i /\ cat_j (cat s1) = start_j)
    by (rewrite reset_run in R; injection R as <-; cbn;
        apply (reset_position _ _ _ _ _ K)).
  assert (N1 : ~ (cat_i (cat s1) = i /\ cat_j (cat s1) = j))
    by (destruct Pc as [-> ->]; intros [<- <-]; apply N; auto).
  destruct (playerClick_accepted w h catM i j s1 block P G W N1
              (step_keeps_blocks _ _ _ _ _ K)) as (s' & R' & Eb).
  exists s1, s', (Block_set_isWall true block).
  split; [exact R |]. split; [exact R' |]. split; [| reflexivity].
  apply (getBlock_same_blocks w h _ _ (wall_placed i j s1)); [symmetry; exact Eb |].
  apply getBlock_wall_placed_same, G.
Qed.
End SceneLifecycle.


(** ** The further theorems at concrete boards *)

Lemma cat3_step_keeps_blocks (s0 : SceneData) :
  blocks (snd (step Boards.cat3 s0)) = blocks s0.
Proof. exact (step_keeps_blocks _ _ _ _ _ (ref_cat_contract 3 3 1 1) s0). Defined.

Lemma corner_click_far :
  playerClick 3 3 Boards.cat3 2 2 Boards.corner =
    Returned true
      (with_cat {| cat_i := 0; cat_j := 1; anims_isPlaying := false |}
         (before_step 2 2 Boards.corner)).
Proof. vm_compute. reflexivity. Defined.

Lemma blocksData_matches_getBlock_witness :
  length (blocksData Boards.corner) = Z.to_nat 3 /\
  Forall (fun column => length column = Z.to_nat 3) (blocksData Boards.corner) /\
  forall i j, inBounds 3 3 i j ->
    exists block column,
      getBlock 3 3 i j Boards.corner = Returned (Some block) Boards.corner /\
      blocksData Boards.corner !! Z.to_nat i = Some column /\
      column !! Z.to_nat j = Some (isWall block).
Proof. exact (blocksData_matches_getBlock 3 3 Boards.corner corner_blocks_created). Defined.

Lemma playerClick_raises_iff_witness :
  ((exists s', playerClick 3 3 Boards.cat3 5 5 Boards.corner = Thrown s') <->
   state Boards.corner = PLAYING /\ inBounds 3 3 5 5 /\
   blocks Boards.corner !! Z.to_nat 5 = None) /\
  (forall s', playerClick 3 3 Boards.cat3 5 5 Boards.corner = Thrown s' ->
     s' = anims_stopped Boards.corner) /\
  exists r s', playerClick 3 3 Boards.cat3 5 5 Boards.corner = Returned r s'.
Proof.
  destruct (playerClick_raises_iff 3 3 Boards.cat3 5 5 Boards.corner) as (Iff & At & Ret).
  split; [exact Iff |]. split; [exact At |]. exact (Ret corner_blocks_created).
Defined.

Lemma playerClick_walls_one_cell_witness :
  exists r s',
    playerClick 3 3 Boards.cat3 2 2 Boards.corner = Returned r s' /\
    getBlock 3 3 2 2 s' =
      Returned (Some (Block_set_isWall true {| block_i := 2; block_j := 2; isWall := false |})) s' /\
    forall a b ob, ~ (a = 2 /\ b = 2) ->
      getBlock 3 3 a b Boards.corner = Returned ob Boards.corner ->
      getBlock 3 3 a b s' = Returned ob s'.
Proof.
  apply (playerClick_walls_one_cell 3 3 Boards.cat3 2 2 Boards.corner).
  - reflexivity.
  - reflexivity.
  - reflexivity.
  - cbn. lia.
  - exact cat3_step_keeps_blocks.
Defined.

Lemma playerClick_keeps_walls_witness :
  getBlock 3 3 1 0
    (with_cat {| cat_i := 0; cat_j := 1; anims_isPlaying := false |}
       (before_step 2 2 Boards.corner)) =
  Returned (Some {| block_i := 1; block_j := 0; isWall := true |})
    (with_cat {| cat_i := 0; cat_j := 1; anims_isPlaying := false |}
       (before_step 2 2 Boards.corner)).
Proof.
  apply (playerClick_keeps_walls 3 3 Boards.cat3 2 2 Boards.corner _ true).
  - reflexivity.
  - exact cat3_step_keeps_blocks.
  - exact corner_click_far.
  - reflexivity.
  - reflexivity.
Defined.

Lemma playerClick_true_iff_witness :
  true = true <->
  state Boards.corner = PLAYING /\
  exists block,
    getBlock 3 3 2 2 Boards.corner = Returned (Some block) Boards.corner /\
    isWall block = false /\
    ~ (cat_i (cat Boards.corner) = 2 /\ cat_j (cat Boards.corner) = 2) /\
    isCaught Boards.cat3 (wall_placed 2 2 Boards.corner) = false.
Proof.
  exact (playerClick_true_iff 3 3 Boards.cat3 2 2 Boards.corner _ true corner_click_far).
Defined.

Lemma fresh_click_escapes :
  playerClick 3 3 Boards.escaping3 0 0 Boards.fresh =
    Returned true
      (with_state LOSE
         (with_statusBar MsgEscaped
            (with_cat {| cat_i := 0; cat_j := 1; anims_isPlaying := false |}
               (before_step 0 0 Boards.fresh)))).
Proof. vm_compute. reflexivity. Defined.

Lemma playerClick_lose_only_from_step_witness :
  state Boards.fresh = PLAYING /\
  (exists block,
     getBlock 3 3 0 0 Boards.fresh = Returned (Some block) Boards.fresh /\
     isWall block = false /\
     ~ (cat_i (cat Boards.fresh) = 0 /\ cat_j (cat Boards.fresh) = 0) /\
     isCaught Boards.escaping3 (wall_placed 0 0 Boards.fresh) = false) /\
  true = true /\
  step Boards.escaping3 (before_step 0 0 Boards.fresh) =
    (true,
     with_state LOSE
       (with_statusBar MsgEscaped
          (with_cat {| cat_i := 0; cat_j := 1; anims_isPlaying := false |}
             (before_step 0 0 Boards.fresh)))).
Proof.
  apply (playerClick_lose_only_from_step 3 3 Boards.escaping3 0 0 Boards.fresh _ true).
  - exact fresh_click_escapes.
  - reflexivity.
Defined.

Lemma playerClick_concession_status_witness :
  exists s',
    playerClick 3 3 Boards.cat3 0 1 Boards.corner = Returned true s' /\
    statusBar s' = MsgNoWayOut /\
    statusBar s' <> MsgCatConcedes.
Proof.
  apply (playerClick_concession_status 3 3 Boards.cat3 0 1 Boards.corner
           {| block_i := 0; block_j := 1; isWall := false |}).
  - reflexivity.
  - reflexivity.
  - reflexivity.
  - cbn. lia.
  - vm_compute. reflexivity.
  - vm_compute. reflexivity.
Defined.

Lemma playerClick_game_over_status_witness :
  exists s',
    playerClick 3 3 Boards.cat3 0 0 Boards.won = Returned false s' /\
    statusBar s' = MsgStart /\
    statusBar s' <> MsgGameOver.
Proof.
  apply (playerClick_game_over_status 3 3 Boards.cat3 0 0 Boards.won). discriminate.
Defined.

Lemma playerClick_twice_rejected_witness :
  playerClick 3 3 Boards.cat3 2 2
    (with_cat {| cat_i := 0; cat_j := 1; anims_isPlaying := false |}
       (before_step 2 2 Boards.corner)) =
  Returned false
    (with_statusBar MsgAlreadyWall
       (anims_stopped
          (with_cat {| cat_i := 0; cat_j := 1; anims_isPlaying := false |}
             (before_step 2 2 Boards.corner)))).
Proof.
  apply (playerClick_twice_rejected 3 3 Boards.cat3 2 2 Boards.corner _
           {| block_i := 2; block_j := 2; isWall := false |} true).
  - reflexivity.
  - reflexivity.
  - reflexivity.
  - cbn. lia.
  - exact cat3_step_keeps_blocks.
  - exact corner_click_far.
  - reflexivity.
Defined.

Lemma reset_blocksData_witness :
  exists s',
    reset Boards.cat3 Boards.corner = Returned tt s' /\
    blocksData s' = replicate (Z.to_nat 3) (replicate (Z.to_nat 3) false).
Proof.
  apply (reset_blocksData 3 3 Boards.cat3 Boards.corner).
  - exact corner_blocks_created.
  - exact (reset_keeps_blocks _ _ _ _ _ (ref_cat_contract 3 3 1 1)).
Defined.

Lemma create_fresh_game_witness :
  exists s',
    create 3 3 Boards.cat3 (cat Boards.corner) MsgGameOver Boards.won = Returned tt s' /\
    blocks s' = createBlocks 3 3 /\
    cat_i (cat s') = 1 /\
    cat_j (cat s') = 1 /\
    state s' = PLAYING /\
    statusBar s' = MsgStart.
Proof.
  exact (create_fresh_game 3 3 Boards.cat3 1 1 (cat Boards.corner) MsgGameOver Boards.won
           (ref_cat_contract 3 3 1 1)).
Defined.

Lemma create_then_events_witness :
  exists s',
    bind (create 3 3 Boards.cat3 (cat Boards.corner) MsgGameOver)
      (fun _ =>
         handle_all 3 3 Boards.cat3
           [Click 0 0; Click 7 7; CatEscaped; Click 1 1; ResetButton; Click 2 1])
      Boards.won = Returned tt s' /\
    blocks_created 3 3 (blocks s') /\
    cat_on_open_cell 3 3 s'.
Proof.
  apply (create_then_events 3 3 Boards.cat3 1 1).
  - exact (ref_cat_contract 3 3 1 1).
  - unfold inBounds. lia.
Defined.

Lemma reset_then_click_witness :
  exists s1 s' block,
    reset Boards.cat3 Boards.won = Returned tt s1 /\
    playerClick 3 3 Boards.cat3 0 0 s1 =
      Returned (negb (isCaught Boards.cat3 (wall_placed 0 0 s1))) s' /\
    getBlock 3 3 0 0 s' = Returned (Some block) s' /\
    isWall block = true.
Proof.
  apply (reset_then_click 3 3 Boards.cat3 1 1 0 0 Boards.won).
  - exact (ref_cat_contract 3 3 1 1).
  - unfold inBounds. lia.
  - vm_compute. reflexivity.
  - unfold inBounds. lia.
  - lia.
Defined.

Lemma cat3_reset_keeps_blocks (s0 : SceneData) :
  blocks (cat_reset Boards.cat3 s0) = blocks s0.
Proof. reflexivity. Defined.

Lemma cat_event_then_click_witness :
  (exists s1 s',
     on_escaped Boards.corner = Returned tt s1 /\
     state s1 = LOSE /\ statusBar s1 = MsgEscaped /\
     blocks s1 = blocks Boards.corner /\ cat s1 = cat Boards.corner /\
     playerClick 3 3 Boards.cat3 2 2 s1 = Returned false s' /\
     state s' = PLAYING /\ statusBar s' = MsgStart /\ no_walls s' /\
     blocks s' =
       (fun column : list Block => Block_set_isWall false <$> column)
         <$> blocks Boards.corner /\
     forall a b block,
       getBlock 3 3 a b Boards.corner = Returned (Some block) Boards.corner ->
       getBlock 3 3 a b s' = Returned (Some (Block_set_isWall false block)) s') /\
  (exists s1 s',
     on_win Boards.corner = Returned tt s1 /\
     state s1 = WIN /\ statusBar s1 = MsgNoWayOut /\
     blocks s1 = blocks Boards.corner /\ cat s1 = cat Boards.corner /\
     playerClick 3 3 Boards.cat3 2 2 s1 = Returned false s' /\
     state s' = PLAYING /\ statusBar s' = MsgStart /\ no_walls s' /\
     blocks s' =
       (fun column : list Block => Block_set_isWall false <$> column)
         <$> blocks Boards.corner /\
     forall a b block,
       getBlock 3 3 a b Boards.corner = Returned (Some block) Boards.corner ->
       getBlock 3 3 a b s' = Returned (Some (Block_set_isWall false block)) s').
Proof.
  exact (cat_event_then_click 3 3 Boards.cat3 2 2 Boards.corner cat3_reset_keeps_blocks).
Defined.
